(** * gh-codeql-report: detail-level projection and report encoders

    A shallow embedding of [src/lib/types.ts] (the detail projector) and of
    the four formatters ([json.ts], [text.ts], [markdown.ts], [sarif.ts]),
    followed by the properties the specification states about them.

    Conventions of the embedding.
    - A JavaScript string is a [string]; every character stands for one
      UTF-16 code unit below 256, so [String.length] is the [.length] of the
      source and [toLowerCase] folds the Latin-1 capital letters.
    - A JavaScript [number] that the program handles (alert numbers, line
      and column positions, counts) is an integer, a [Z]; it prints in
      decimal, as [String(n)] does for integers below [1e21].
    - A JavaScript object is an association list in insertion order, the
      order in which [JSON.stringify] and [Object.entries] walk its keys. *)

From stdpp Require Import list strings pretty.
From Stdlib Require Import ZArith Ascii.
From Stdlib Require String.

Set Warnings "-register-all".

(** ** JavaScript primitives used by the program *)

Module Js.

(** The line feed and the double quote, which have no literal form. *)
Definition nl : string := String "010"%char "".
Definition dquote : string := String "034"%char "".
Definition backslash : string := String "092"%char "".
Definition backtick : string := String "096"%char "".

(** [s.repeat(n)] *)
Fixpoint repeat (s : string) (n : nat) : string :=
  match n with
  | O => ""
  | S n' => s +:+ repeat s n'
  end.

(** [s.padEnd(targetLength)]: the fill string is a single space. *)
Definition padEnd (s : string) (targetLength : nat) : string :=
  if targetLength <=? String.length s then s
  else s +:+ repeat " " (targetLength - String.length s).

(** [xs.join(sep)] *)
Fixpoint join (sep : string) (xs : list string) : string :=
  match xs with
  | [] => ""
  | [x] => x
  | x :: rest => x +:+ sep +:+ join sep rest
  end.

(** [c.toLowerCase()] on one code unit below 256: the letters A-Z and
    the Latin-1 capitals U+00C0..U+00DE (but for the multiplication sign
    U+00D7) move up by 32. *)
Definition lower_char (c : ascii) : ascii :=
  let n := nat_of_ascii c in
  if (65 <=? n) && (n <=? 90) ||
     (192 <=? n) && (n <=? 222) && negb (n =? 215)
  then ascii_of_nat (n + 32) else c.

(** [s.toLowerCase()] *)
Fixpoint toLowerCase (s : string) : string :=
  match s with
  | EmptyString => EmptyString
  | String c rest => String (lower_char c) (toLowerCase rest)
  end.

(** [String(n)] for an integer. *)
Definition numToString (n : Z) : string := pretty n.

(** Values: what a property of an alert, raw or projected, can hold. *)
Inductive Val : Type :=
| VUndef
| VNum (n : Z)
| VStr (s : string)
| VObj (props : list (string * Val))
| VArr (elems : list Val).

(** An object with values in [V], keys in insertion order. *)
Definition Obj (V : Type) : Type := list (string * V).

(** [Object.keys(o)] *)
Definition keys {V} (o : Obj V) : list string := o.*1.

(** [k in o] *)
Definition has {V} (k : string) (o : Obj V) : bool :=
  bool_decide (k ∈ keys o).

(** [o[k]], [None] standing for [undefined]. *)
Fixpoint get {V} (o : Obj V) (k : string) : option V :=
  match o with
  | [] => None
  | (k', v) :: rest => if decide (k' = k) then Some v else get rest k
  end.

(** [o[k] = v]: an existing key keeps its place, a new one goes last. *)
Fixpoint set {V} (o : Obj V) (k : string) (v : V) : Obj V :=
  match o with
  | [] => [(k, v)]
  | (k', v') :: rest =>
      if decide (k' = k) then (k', v) :: rest else (k', v') :: set rest k v
  end.

(** [o.k] read as a value: a missing property reads [undefined]. *)
Definition prop (o : Obj Val) (k : string) : Val := default VUndef (get o k).

(** A value inside a template literal: [String(v)]. *)
Fixpoint toString (v : Val) : string :=
  match v with
  | VUndef => "undefined"
  | VNum n => numToString n
  | VStr s => s
  | VObj _ => "[object Object]"
  | VArr elems => join "," (map toString elems)
  end.

(** *** [JSON.stringify(v, null, 2)] *)

Definition hex_digit (n : nat) : ascii :=
  default "0"%char (String.get n "0123456789abcdef").

(** One code unit inside a JSON string: the quote and the backslash are
    escaped, the control characters print by their short escape where
    there is one and as a four-digit hexadecimal escape otherwise. *)
Definition escape_char (c : ascii) : string :=
  let n := nat_of_ascii c in
  if n =? 34 then backslash +:+ dquote
  else if n =? 92 then backslash +:+ backslash
  else if n =? 8 then backslash +:+ "b"
  else if n =? 12 then backslash +:+ "f"
  else if n =? 10 then backslash +:+ "n"
  else if n =? 13 then backslash +:+ "r"
  else if n =? 9 then backslash +:+ "t"
  else if n <? 32 then
    backslash +:+ "u00" +:+
    String (hex_digit (n / 16)) (String (hex_digit (n mod 16)) "")
  else String c "".

Fixpoint escape (s : string) : string :=
  match s with
  | EmptyString => EmptyString
  | String c rest => escape_char c +:+ escape rest
  end.

Definition quote (s : string) : string := dquote +:+ escape s +:+ dquote.

(** Members of a non-empty object or array, one per line at [inner]
    spaces, between the brackets [op] and [cl]. *)
Definition bracket (op cl : string) (indent : nat) (parts : list string) : string :=
  match parts with
  | [] => op +:+ cl
  | _ =>
      let inner := repeat " " (indent + 2) in
      op +:+ nl +:+ join ("," +:+ nl) (map (fun p => inner +:+ p) parts)
      +:+ nl +:+ repeat " " indent +:+ cl
  end.

(** [None] is the [undefined] that [JSON.stringify] gives for
    [undefined]: a property holding it is left out, an array element
    holding it prints [null]. *)
Fixpoint stringifyAt (indent : nat) (v : Val) : option string :=
  match v with
  | VUndef => None
  | VNum n => Some (numToString n)
  | VStr s => Some (quote s)
  | VObj props =>
      let members :=
        (fix go (ps : list (string * Val)) : list string :=
           match ps with
           | [] => []
           | (k, x) :: rest =>
               match stringifyAt (indent + 2) x with
               | Some t => (quote k +:+ ": " +:+ t) :: go rest
               | None => go rest
               end
           end) props in
      Some (bracket "{" "}" indent members)
  | VArr elems =>
      let members :=
        (fix go (es : list Val) : list string :=
           match es with
           | [] => []
           | x :: rest => default "null" (stringifyAt (indent + 2) x) :: go rest
           end) elems in
      Some (bracket "[" "]" indent members)
  end.

(** [JSON.stringify(v, null, 2)] on a value that is not [undefined]. *)
Definition stringify (v : Val) : string := default "undefined" (stringifyAt 0 v).

End Js.

(** ** [src/lib/codeql.ts]: the raw alert *)

Module Rule.
Record t := mk {
  id : string;
  severity : string;
  description : string;
  name : string }.
End Rule.

Module Message.
Record t := mk { text : string }.
End Message.

Module Location.
Record t := mk {
  path : string;
  start_line : Z;
  end_line : Z;
  start_column : Z;
  end_column : Z }.
End Location.

Module Instance.
Record t := mk {
  ref : string;
  analysis_key : string;
  category : string;
  state : string;
  commit_sha : string;
  message : Message.t;
  location : Location.t }.
End Instance.

Module Tool.
Record t := mk {
  name : string;
  version : string }.
End Tool.

(** [interface CodeQLAlert]; [help] is the one optional member. *)
Record CodeQLAlert := mkAlert {
  number : Z;
  rule : Rule.t;
  most_recent_instance : Instance.t;
  help : option string;
  tool : Tool.t }.

(** The alert as the object it is at run time, its members in the order of
    the interface; an absent [help] is an absent key. *)
Definition alertToVal (a : CodeQLAlert) : Js.Val :=
  let r := rule a in
  let i := most_recent_instance a in
  let l := Instance.location i in
  Js.VObj
    ([("number", Js.VNum (number a));
      ("rule", Js.VObj
         [("id", Js.VStr (Rule.id r));
          ("severity", Js.VStr (Rule.severity r));
          ("description", Js.VStr (Rule.description r));
          ("name", Js.VStr (Rule.name r))]);
      ("most_recent_instance", Js.VObj
         [("ref", Js.VStr (Instance.ref i));
          ("analysis_key", Js.VStr (Instance.analysis_key i));
          ("category", Js.VStr (Instance.category i));
          ("state", Js.VStr (Instance.state i));
          ("commit_sha", Js.VStr (Instance.commit_sha i));
          ("message", Js.VObj [("text", Js.VStr (Message.text (Instance.message i)))]);
          ("location", Js.VObj
             [("path", Js.VStr (Location.path l));
              ("start_line", Js.VNum (Location.start_line l));
              ("end_line", Js.VNum (Location.end_line l));
              ("start_column", Js.VNum (Location.start_column l));
              ("end_column", Js.VNum (Location.end_column l))])])]
     ++ match help a with
        | Some h => [("help", Js.VStr h)]
        | None => []
        end
     ++ [("tool", Js.VObj
            [("name", Js.VStr (Tool.name (tool a)));
             ("version", Js.VStr (Tool.version (tool a)))])]).

(** ** [src/lib/types.ts]: the detail projector *)

Inductive DetailLevel := minimum | medium | full | raw.

(** The level inside a template literal. *)
Definition levelName (level : DetailLevel) : string :=
  match level with
  | minimum => "minimum"
  | medium => "medium"
  | full => "full"
  | raw => "raw"
  end.

(** [MinimumAlert | MediumAlert | FullAlert | CodeQLAlert]: a flattened
    object, or the raw alert itself. *)
Inductive Filtered :=
| Flat (o : Js.Obj Js.Val)
| Raw (a : CodeQLAlert).

(** A string in a condition: only the empty string is falsy. *)
Definition truthy (s : string) : bool := negb (String.eqb s "").

(** The declared members of [interface MinimumAlert], of
    [interface MediumAlert extends MinimumAlert] and of
    [interface FullAlert extends MediumAlert]; [help_text?] is optional. *)
Definition MinimumAlert : list string :=
  ["number"; "rule_id"; "rule_name"; "severity"; "message"; "file_path";
   "start_line"; "end_line"; "commit_sha"].

Definition MediumAlert : list string :=
  (MinimumAlert ++ ["rule_description"; "start_column"; "end_column"; "state"]).

Definition FullAlert : list string :=
  (MediumAlert ++ ["ref"; "analysis_key"; "category"; "tool_name"; "tool_version"]).

Definition FullAlertOptional : list string := ["help_text"].

Definition filterAlertByDetail (alert : CodeQLAlert) (level : DetailLevel) : Filtered :=
  let instance := most_recent_instance alert in
  let location := Instance.location instance in
  match level with
  | raw => Raw alert
  | full =>
      let fullAlert : Js.Obj Js.Val :=
        [("number", Js.VNum (number alert));
         ("rule_id", Js.VStr (Rule.id (rule alert)));
         ("rule_name", Js.VStr (Rule.name (rule alert)));
         ("severity", Js.VStr (Rule.severity (rule alert)));
         ("message", Js.VStr (Message.text (Instance.message instance)));
         ("file_path", Js.VStr (Location.path location));
         ("start_line", Js.VNum (Location.start_line location));
         ("end_line", Js.VNum (Location.end_line location));
         ("commit_sha", Js.VStr (Instance.commit_sha instance));
         ("rule_description", Js.VStr (Rule.description (rule alert)));
         ("start_column", Js.VNum (Location.start_column location));
         ("end_column", Js.VNum (Location.end_column location));
         ("state", Js.VStr (Instance.state instance));
         ("ref", Js.VStr (Instance.ref instance));
         ("analysis_key", Js.VStr (Instance.analysis_key instance));
         ("category", Js.VStr (Instance.category instance));
         ("tool_name", Js.VStr (Tool.name (tool alert)));
         ("tool_version", Js.VStr (Tool.version (tool alert)))] in
      (* Add help_text if available *)
      match help alert with
      | Some h =>
          if truthy h then Flat (Js.set fullAlert "help_text" (Js.VStr h))
          else Flat fullAlert
      | None => Flat fullAlert
      end
  | medium =>
      let mediumAlert : Js.Obj Js.Val :=
        [("number", Js.VNum (number alert));
         ("rule_id", Js.VStr (Rule.id (rule alert)));
         ("rule_name", Js.VStr (Rule.name (rule alert)));
         ("severity", Js.VStr (Rule.severity (rule alert)));
         ("message", Js.VStr (Message.text (Instance.message instance)));
         ("file_path", Js.VStr (Location.path location));
         ("start_line", Js.VNum (Location.start_line location));
         ("end_line", Js.VNum (Location.end_line location));
         ("commit_sha", Js.VStr (Instance.commit_sha instance));
         ("rule_description", Js.VStr (Rule.description (rule alert)));
         ("start_column", Js.VNum (Location.start_column location));
         ("end_column", Js.VNum (Location.end_column location));
         ("state", Js.VStr (Instance.state instance))] in
      Flat mediumAlert
  | minimum =>
      let minimumAlert : Js.Obj Js.Val :=
        [("number", Js.VNum (number alert));
         ("rule_id", Js.VStr (Rule.id (rule alert)));
         ("rule_name", Js.VStr (Rule.name (rule alert)));
         ("severity", Js.VStr (Rule.severity (rule alert)));
         ("message", Js.VStr (Message.text (Instance.message instance)));
         ("file_path", Js.VStr (Location.path location));
         ("start_line", Js.VNum (Location.start_line location));
         ("end_line", Js.VNum (Location.end_line location));
         ("commit_sha", Js.VStr (Instance.commit_sha instance))] in
      Flat minimumAlert
  end.

(** [filtered as MinimumAlert | MediumAlert | FullAlert]: a type assertion
    changes nothing at run time, a raw alert stays the object it is. *)
Definition asFlat (filtered : Filtered) : Js.Obj Js.Val :=
  match filtered with
  | Flat o => o
  | Raw a =>
      match alertToVal a with
      | Js.VObj props => props
      | _ => []
      end
  end.

(** [Object.keys] of what the projector returns for [alert] at [level]. *)
Definition fieldsAt (alert : CodeQLAlert) (level : DetailLevel) : list string :=
  Js.keys (asFlat (filterAlertByDetail alert level)).

Definition filteredToVal (filtered : Filtered) : Js.Val :=
  match filtered with
  | Flat o => Js.VObj o
  | Raw a => alertToVal a
  end.

(** ** [src/formatters/json.ts] *)

Definition formatAsJSON (alerts : list CodeQLAlert) (detailLevel : DetailLevel) : string :=
  let filteredAlerts := map (fun alert => filterAlertByDetail alert detailLevel) alerts in
  Js.stringify (Js.VArr (map filteredToVal filteredAlerts)).

(** [`${o.k}`]: a member of a flattened alert inside a template literal. *)
Definition tpl (o : Js.Obj Js.Val) (k : string) : string := Js.toString (Js.prop o k).

(** ** [src/formatters/text.ts] *)

(** The lines one turn of the loop over [alerts] pushes. *)
Definition textAlertLines (detailLevel : DetailLevel) (alert : CodeQLAlert) : list string :=
  let filtered := filterAlertByDetail alert detailLevel in
  match detailLevel with
  | raw =>
      (* Handle raw format - return original JSON-like structure *)
      [Js.stringify (filteredToVal filtered);
       Js.repeat "-" 80 +:+ Js.nl]
  | _ =>
      let flatAlert := asFlat filtered in
      (["Alert #" +:+ tpl flatAlert "number";
        "Rule: " +:+ tpl flatAlert "rule_id";
        "Name: " +:+ tpl flatAlert "rule_name";
        "Severity: " +:+ tpl flatAlert "severity"]
       (* Description only in medium and full *)
       ++ (if Js.has "rule_description" flatAlert
           then ["Description: " +:+ tpl flatAlert "rule_description"] else [])
       ++ [""; "Location:";
           "  File: " +:+ tpl flatAlert "file_path";
           "  Lines: " +:+ tpl flatAlert "start_line" +:+ "-" +:+ tpl flatAlert "end_line"]
       (* Columns only in medium and full *)
       ++ (if Js.has "start_column" flatAlert
           then ["  Columns: " +:+ tpl flatAlert "start_column" +:+ "-"
                 +:+ tpl flatAlert "end_column"] else [])
       ++ [""; "Message:";
           "  " +:+ tpl flatAlert "message";
           (* Commit is now in all levels *)
           "";
           "Commit: " +:+ tpl flatAlert "commit_sha"]
       (* State only in medium and full *)
       ++ (if Js.has "state" flatAlert
           then ["State: " +:+ tpl flatAlert "state"] else [])
       ++ [Js.repeat "-" 80 +:+ Js.nl])
  end.

(** The array [lines] when the loop is over. *)
Definition textLines (alerts : list CodeQLAlert) (detailLevel : DetailLevel) : list string :=
  (["CodeQL Security Scan Report";
    "Total Alerts: " +:+ Js.numToString (Z.of_nat (length alerts));
    "Detail Level: " +:+ levelName detailLevel;
    Js.repeat "=" 80 +:+ Js.nl]
   ++ flat_map (textAlertLines detailLevel) alerts).

Definition formatAsText (alerts : list CodeQLAlert) (detailLevel : DetailLevel) : string :=
  Js.join Js.nl (textLines alerts detailLevel).

(** ** [src/formatters/markdown.ts] *)

(** [row[i]?.length || 0] *)
Definition cellLength (row : list string) (i : nat) : nat :=
  match row !! i with
  | Some cell => String.length cell
  | None => 0
  end.

(** [Math.max(header.length, ...rows.map((row) => row[i]?.length || 0))]
    for every header. *)
Definition columnWidths (headers : list string) (rows : list (list string)) : list nat :=
  imap (fun i header =>
          max_list (String.length header :: map (fun row => cellLength row i) rows))
       headers.

(** [Array.from({ length: headers.length }, (_, i) => row[i] || '')] *)
Definition paddedRow (headers row : list string) : list string :=
  map (fun i => default "" (row !! i)) (seq 0 (length headers)).

(** [cells.map((cell, i) => cell.padEnd(columnWidths[i]))]; a width that
    is not there is [undefined], which pads nothing. *)
Definition padCells (widths : list nat) (cells : list string) : list string :=
  imap (fun i cell => Js.padEnd cell (default 0 (widths !! i))) cells.

Definition tableRow (cells : list string) : string :=
  "| " +:+ Js.join " | " cells +:+ " |".

(** The array [lines] of [generateMarkdownTable], for a header and rows. *)
Definition tableLines (headers : list string) (rows : list (list string)) : list string :=
  let widths := columnWidths headers rows in
  (* Header row *)
  tableRow (padCells widths headers)
  (* Separator row *)
  :: tableRow (map (fun width => Js.repeat "-" width) widths)
  (* Data rows *)
  :: map (fun row => tableRow (padCells widths (paddedRow headers row))) rows.

Definition generateMarkdownTable (data : list (list string)) : string :=
  match data with
  | [] => ""
  | headers :: rows => Js.join Js.nl (tableLines headers rows)
  end.

(** The specification's reading of the table layout, in its own words:
    the cell of a row at a column is the empty string where the row has
    none; the width of a column is the greatest length among the header's
    cell and every row's cell at that column; a row is rendered from its
    cell at each of the header's columns, padded to the column's width. *)
Definition cellAt (row : list string) (i : nat) : string := default "" (row !! i).

Definition specColumnWidth (headers : list string) (rows : list (list string)) (i : nat) : nat :=
  max_list ((λ row, String.length (cellAt row i)) <$> headers :: rows).

Definition specRowCells
    (headers : list string) (rows : list (list string)) (row : list string) : list string :=
  (λ i, Js.padEnd (cellAt row i) (specColumnWidth headers rows i))
    <$> seq 0 (length headers).

(** [alerts.reduce(...)]: how many alerts carry each lower-cased severity,
    keyed in order of first appearance. The keys are taken to be ordinary
    property names: not array indices, which [Object.entries] would move
    to the front, and not names that [Object.prototype] already answers. *)
Definition severityCounts (alerts : list CodeQLAlert) : Js.Obj Z :=
  foldl (fun acc alert =>
           let severity := Js.toLowerCase (Rule.severity (rule alert)) in
           Js.set acc severity (default 0%Z (Js.get acc severity) + 1)%Z)
        [] alerts.

Definition summaryTableData (alerts : list CodeQLAlert) : list (list string) :=
  ["Severity"; "Count"]
  :: map (fun '(severity, count) => [severity; Js.numToString count])
         (severityCounts alerts).

(** The lines one turn of the loop over [alerts] pushes. *)
Definition markdownAlertLines (detailLevel : DetailLevel) (alert : CodeQLAlert) : list string :=
  let filtered := filterAlertByDetail alert detailLevel in
  match detailLevel with
  | raw =>
      (* Handle raw format - return as code block *)
      [Js.backtick +:+ Js.backtick +:+ Js.backtick +:+ "json";
       Js.stringify (filteredToVal filtered);
       Js.backtick +:+ Js.backtick +:+ Js.backtick;
       "";
       "---";
       ""]
  | _ =>
      let flatAlert := asFlat filtered in
      ["### Alert #" +:+ tpl flatAlert "number" +:+ ": " +:+ tpl flatAlert "rule_name";
       "";
       "**Rule ID:** " +:+ Js.backtick +:+ tpl flatAlert "rule_id" +:+ Js.backtick;
       "**Severity:** " +:+ tpl flatAlert "severity"]
      (* Description only in medium and full *)
      ++ (if Js.has "rule_description" flatAlert
          then ["**Description:** " +:+ tpl flatAlert "rule_description"] else [])
      ++ [""; "#### Location"; "";
          "- **File:** " +:+ Js.backtick +:+ tpl flatAlert "file_path" +:+ Js.backtick;
          "- **Lines:** " +:+ tpl flatAlert "start_line" +:+ "-" +:+ tpl flatAlert "end_line"]
      (* Columns only in medium and full *)
      ++ (if Js.has "start_column" flatAlert
          then ["- **Columns:** " +:+ tpl flatAlert "start_column" +:+ "-"
                +:+ tpl flatAlert "end_column"] else [])
      ++ [""; "#### Message"; "";
          tpl flatAlert "message";
          (* Details section - commit is now in all levels *)
          ""; "#### Details"; "";
          "- **Commit:** " +:+ Js.backtick +:+ tpl flatAlert "commit_sha" +:+ Js.backtick]
      (* State only in medium and full *)
      ++ (if Js.has "state" flatAlert
          then ["- **State:** " +:+ tpl flatAlert "state"] else [])
      (* Reference only in full *)
      ++ (if Js.has "ref" flatAlert
          then ["- **Reference:** " +:+ tpl flatAlert "ref"] else [])
      ++ [""; "---"; ""]
  end.

(** The lines pushed before the loop. [now] is what
    [new Date().toISOString()] reads off the clock during the call. *)
Definition markdownHeaderLines
    (now : string) (alerts : list CodeQLAlert) (repoName : string)
    (detailLevel : DetailLevel) : list string :=
  ["# CodeQL Security Scan Report";
   "";
   "**Repository:** " +:+ repoName;
   "**Total Alerts:** " +:+ Js.numToString (Z.of_nat (length alerts));
   "**Detail Level:** " +:+ levelName detailLevel;
   "**Generated:** " +:+ now;
   "";
   "---";
   "";
   (* Summary table *)
   "## Summary by Severity";
   "";
   generateMarkdownTable (summaryTableData alerts);
   "";
   (* Detailed alerts *)
   "## Detailed Alerts";
   ""].

Definition markdownLines
    (now : string) (alerts : list CodeQLAlert) (repoName : string)
    (detailLevel : DetailLevel) : list string :=
  markdownHeaderLines now alerts repoName detailLevel
  ++ flat_map (markdownAlertLines detailLevel) alerts.

(** [formatAsMarkdown] reads the clock: a call is a function of its
    arguments and of the instant [now] at which it runs. *)
Definition formatAsMarkdown
    (now : string) (alerts : list CodeQLAlert) (repoName : string)
    (detailLevel : DetailLevel) : string :=
  Js.join Js.nl (markdownLines now alerts repoName detailLevel).

(** ** [src/formatters/sarif.ts] *)

Inductive SarifLevel := error | warning | note.

Definition mapSeverityToLevel (severity : string) : SarifLevel :=
  let folded := Js.toLowerCase severity in
  if decide (folded = "error") then error
  else if decide (folded = "critical") then error
  else if decide (folded = "warning") then warning
  else if decide (folded = "medium") then warning
  else note.

(** The specification's reading of the mapping, in its own words: a
    severity is compared with the keywords letter by letter, a capital
    A-Z counting as its small letter. *)
Definition isCapital (n : nat) : bool := (65 <=? n) && (n <=? 90).

Definition sameLetter (c d : ascii) : bool :=
  let m := nat_of_ascii c in
  let n := nat_of_ascii d in
  (m =? n) || (isCapital m && (m + 32 =? n)) || (isCapital n && (n + 32 =? m)).

Fixpoint equalsIgnoreCase (s t : string) : bool :=
  match s, t with
  | EmptyString, EmptyString => true
  | String c s', String d t' => sameLetter c d && equalsIgnoreCase s' t'
  | _, _ => false
  end.

Definition specSeverityLevel (severity : string) : SarifLevel :=
  if equalsIgnoreCase severity "error" || equalsIgnoreCase severity "critical"
  then error
  else if equalsIgnoreCase severity "warning" || equalsIgnoreCase severity "medium"
  then warning
  else note.

(** Every code unit of the model. *)
Definition allChars : list ascii := map ascii_of_nat (seq 0 256).

Definition isSmallLetter (d : ascii) : bool :=
  (97 <=? nat_of_ascii d) && (nat_of_ascii d <=? 122).

Fixpoint allSmallLetters (t : string) : bool :=
  match t with
  | EmptyString => true
  | String d t' => isSmallLetter d && allSmallLetters t'
  end.

Definition smallLetters : list ascii := map ascii_of_nat (seq 97 26).

(** What the formatter hands to [node-sarif-builder]: the options of
    [SarifRunBuilder.initSimple] and of each [SarifResultBuilder.initSimple]. *)
Record SarifRunOptions := mkRunOptions {
  toolDriverName : string;
  toolDriverVersion : Js.Val }.

Record SarifResultOptions := mkResultOptions {
  ruleId : Js.Val;
  level : SarifLevel;
  messageText : Js.Val;
  fileUri : Js.Val;
  startLine : Js.Val;
  startColumn : Js.Val }.

Record SarifRun := mkRun {
  runOptions : SarifRunOptions;
  runResults : list SarifResultOptions }.

(** [let toolVersion = '1.0.0'; if (...) { ... }] *)
Definition toolVersion (alerts : list CodeQLAlert) (detailLevel : DetailLevel) : Js.Val :=
  match detailLevel, alerts with
  | full, first :: _ =>
      let fullAlert := asFlat (filterAlertByDetail first full) in
      if Js.has "tool_version" fullAlert then Js.prop fullAlert "tool_version"
      else Js.VStr "1.0.0"
  | _, _ => Js.VStr "1.0.0"
  end.

(** The result one turn of the loop over [alerts] adds to the run. The
    severity of a flattened alert is a string and is folded as such. *)
Definition sarifResult (detailLevel : DetailLevel) (alert : CodeQLAlert) : SarifResultOptions :=
  let filtered := filterAlertByDetail alert detailLevel in
  let flatAlert := asFlat filtered in
  (* For minimum level, we use line numbers but set column to 1 if not available *)
  let startColumn :=
    if Js.has "start_column" flatAlert then Js.prop flatAlert "start_column"
    else Js.VNum 1 in
  {| ruleId := Js.prop flatAlert "rule_id";
     level := mapSeverityToLevel (tpl flatAlert "severity");
     messageText := Js.prop flatAlert "message";
     fileUri := Js.prop flatAlert "file_path";
     startLine := Js.prop flatAlert "start_line";
     startColumn := startColumn |}.

(** The run as it stands when [sarifBuilder.addRun(runBuilder)] is reached,
    on the path past the [raw] return. *)
Definition sarifRun (alerts : list CodeQLAlert) (detailLevel : DetailLevel) : SarifRun :=
  {| runOptions :=
       {| toolDriverName := "CodeQL";
          toolDriverVersion := toolVersion alerts detailLevel |};
     runResults := map (sarifResult detailLevel) alerts |}.

Section Sarif.

(** [new SarifBuilder().addRun(run).buildSarifJsonString()]: the
    serialiser of [node-sarif-builder], a dependency of the program. *)
Variable buildSarifJsonString : SarifRun -> string.

Definition formatAsSARIF
    (alerts : list CodeQLAlert) (_repoName : string)
    (detailLevel : DetailLevel) : string :=
  match detailLevel with
  | raw =>
      (* For raw format, return alerts as JSON *)
      Js.stringify (Js.VArr (map alertToVal alerts))
  | _ => buildSarifJsonString (sarifRun alerts detailLevel)
  end.

End Sarif.

(** ** [src/cli.ts]: the choice of the encoder *)

Inductive Format := json | sarif | txt | md.

(** The [switch (argv.format)] of [main], run at the instant [now]. *)
Definition encode
    (buildSarifJsonString : SarifRun → string) (format : Format) (now : string)
    (alerts : list CodeQLAlert) (repoName : string) (detailLevel : DetailLevel) : string :=
  match format with
  | json => formatAsJSON alerts detailLevel
  | sarif => formatAsSARIF buildSarifJsonString alerts repoName detailLevel
  | txt => formatAsText alerts detailLevel
  | md => formatAsMarkdown now alerts repoName detailLevel
  end.

(** ** Reading a report *)









(** ** Sample data: the alert of the test suite *)

Definition mockAlert : CodeQLAlert :=
  {| number := 1;
     rule := {| Rule.id := "js/sql-injection"; Rule.severity := "error";
                Rule.description := "SQL injection vulnerability";
                Rule.name := "SQL Injection" |};
     most_recent_instance :=
       {| Instance.ref := "refs/heads/main";
          Instance.analysis_key := "test-analysis";
          Instance.category := "security";
          Instance.state := "open";
          Instance.commit_sha := "abc123";
          Instance.message := {| Message.text := "Potential SQL injection detected" |};
          Instance.location :=
            {| Location.path := "src/database.js";
               Location.start_line := 10; Location.end_line := 12;
               Location.start_column := 5; Location.end_column := 20 |} |};
     help := None;
     tool := {| Tool.name := "CodeQL"; Tool.version := "2.0.0" |} |}.

(** ** Reading a projection *)

(** The help text the full projection shows: the alert's [help] unless it
    is absent or empty. *)
Definition helpText (a : CodeQLAlert) : option string :=
  match help a with
  | Some h => if truthy h then Some h else None
  | None => None
  end.

(** A number or a string: a value with nothing nested in it. *)
Definition isScalar (v : Js.Val) : bool :=
  match v with
  | Js.VNum _ | Js.VStr _ => true
  | _ => false
  end.


(** The column range of an alert as both line-oriented encoders print it. *)
Definition columnRange (a : CodeQLAlert) : string :=
  let l := Instance.location (most_recent_instance a) in
  Js.numToString (Location.start_column l) +:+ "-"
  +:+ Js.numToString (Location.end_column l).

(** ** [src/lib/git.ts]: the repository behind a remote URL *)

Record GitHubRepo := mkRepo {
  owner : string;
  repo : string }.

(** *** Regular expressions, as far as the two patterns go

    A backtracking matcher in the order JavaScript tries alternatives: a
    greedy repetition takes as many characters as it can and gives them back
    one by one, a lazy one takes one and asks for more one by one, an
    optional part is tried before it is skipped, and a search tries every
    start from the left. *)

Inductive Regex :=
| RLit (s : string)                      (* the characters of [s] *)
| RClass (p : ascii → bool)              (* one character of a class *)
| RPlus (greedy : bool) (p : ascii → bool) (* [[class]+] and [[class]+?] *)
| ROpt (r : Regex)                       (* [(r)?] *)
| RGroup (i : nat) (r : Regex)           (* the capture group [i] *)
| RSeq (r1 r2 : Regex)
| RStart                                 (* [^] *)
| REnd.                                  (* [$] *)

(** The groups that took part in a match, the latest capture first. *)
Definition Captures := list (nat * string).

Definition group (caps : Captures) (i : nat) : option string :=
  snd <$> find (λ c, bool_decide (c.1 = i)) caps.

(** What is left to match: it is given the position reached, the rest of
    the input and the captures so far, and answers where the match ends. *)
Definition Cont := nat → string → Captures → option (nat * Captures).

(** The literal [lit] at the head of the input: what follows it. *)
Fixpoint matchLit (lit input : string) : option string :=
  match lit, input with
  | EmptyString, _ => Some input
  | String c lit', String d input' =>
      if Ascii.eqb c d then matchLit lit' input' else None
  | String _ _, EmptyString => None
  end.

Fixpoint plusGreedy (p : ascii → bool) (pos : nat) (input : string)
    (caps : Captures) (k : Cont) : option (nat * Captures) :=
  match input with
  | String c rest =>
      if p c then
        match plusGreedy p (S pos) rest caps k with
        | Some res => Some res
        | None => k (S pos) rest caps
        end
      else None
  | EmptyString => None
  end.

Fixpoint plusLazy (p : ascii → bool) (pos : nat) (input : string)
    (caps : Captures) (k : Cont) : option (nat * Captures) :=
  match input with
  | String c rest =>
      if p c then
        match k (S pos) rest caps with
        | Some res => Some res
        | None => plusLazy p (S pos) rest caps k
        end
      else None
  | EmptyString => None
  end.

Fixpoint run (r : Regex) (pos : nat) (input : string) (caps : Captures) (k : Cont)
    : option (nat * Captures) :=
  match r with
  | RLit lit =>
      match matchLit lit input with
      | Some rest => k (pos + String.length lit) rest caps
      | None => None
      end
  | RClass p =>
      match input with
      | String c rest => if p c then k (S pos) rest caps else None
      | EmptyString => None
      end
  | RPlus true p => plusGreedy p pos input caps k
  | RPlus false p => plusLazy p pos input caps k
  | ROpt r' =>
      match run r' pos input caps k with
      | Some res => Some res
      | None => k pos input caps
      end
  | RGroup i r' =>
      run r' pos input caps
          (λ pos' rest caps', k pos' rest ((i, String.substring 0 (pos' - pos) input) :: caps'))
  | RSeq r1 r2 => run r1 pos input caps (λ pos' rest caps', run r2 pos' rest caps' k)
  | RStart => if pos =? 0 then k pos input caps else None
  | REnd =>
      match input with
      | EmptyString => k pos input caps
      | String _ _ => None
      end
  end.

(** The continuation that ends a match. *)
Definition matched : Cont := λ pos _ caps, Some (pos, caps).

(** A match found: where it starts, where it ends, what it captured. *)
Record Match := mkMatch {
  matchStart : nat;
  matchEnd : nat;
  captures : Captures }.

(** The leftmost match from position [pos] on, [input] being what the
    string holds from there. *)
Fixpoint search (r : Regex) (pos : nat) (input : string) : option Match :=
  match run r pos input [] matched with
  | Some (pos', caps) => Some (mkMatch pos pos' caps)
  | None =>
      match input with
      | String _ rest => search r (S pos) rest
      | EmptyString => None
      end
  end.

(** [s.match(r)] for a pattern without the [g] flag. *)
Definition regexMatch (r : Regex) (s : string) : option Match := search r 0 s.

(** [s.replace(r, '')] for a pattern without the [g] flag. *)
Definition replaceWithEmpty (r : Regex) (s : string) : string :=
  match regexMatch r s with
  | Some m =>
      String.substring 0 (matchStart m) s
      +:+ String.substring (matchEnd m) (String.length s - matchEnd m) s
  | None => s
  end.

(** *** The patterns of [parseGitHubUrl] *)

Definition notSlash (c : ascii) : bool := negb (Ascii.eqb c "/").

Definition colonOrSlash (c : ascii) : bool := Ascii.eqb c ":" || Ascii.eqb c "/".

(** [/github\.com[:/]([^/]+)\/([^/]+?)(\.git)?$/] *)
Definition remotePattern : Regex :=
  RSeq (RLit "github.com")
    (RSeq (RClass colonOrSlash)
       (RSeq (RGroup 1 (RPlus true notSlash))
          (RSeq (RLit "/")
             (RSeq (RGroup 2 (RPlus false notSlash))
                (RSeq (ROpt (RGroup 3 (RLit ".git"))) REnd))))).

(** [/^([^/]+)\/([^/]+)(\.git)?$/] *)
Definition shortPattern : Regex :=
  RSeq RStart
    (RSeq (RGroup 1 (RPlus true notSlash))
       (RSeq (RLit "/")
          (RSeq (RGroup 2 (RPlus true notSlash))
             (RSeq (ROpt (RGroup 3 (RLit ".git"))) REnd)))).

(** [/\.git$/] *)
Definition gitSuffixPattern : Regex := RSeq (RLit ".git") REnd.

Definition patterns : list Regex := [remotePattern; shortPattern].

(** [parseGitHubUrl]: the first pattern that matches decides. In either
    pattern the groups 1 and 2 take part in every match. *)
Definition parseGitHubUrl (url : string) : option GitHubRepo :=
  (fix loop (ps : list Regex) : option GitHubRepo :=
     match ps with
     | [] => None
     | pattern :: rest =>
         match regexMatch pattern url with
         | Some m =>
             Some {| owner := default "" (group (captures m) 1);
                     repo := replaceWithEmpty gitSuffixPattern
                               (default "" (group (captures m) 2)) |}
         | None => loop rest
         end
     end) patterns.

(** Every character of a string is of a class. *)
Fixpoint forallChars (p : ascii → bool) (s : string) : bool :=
  match s with
  | EmptyString => true
  | String c rest => p c && forallChars p rest
  end.

(** Some tail of [s] is [suffix]: [s.endsWith(suffix)]. *)
Fixpoint endsWith (suffix s : string) : bool :=
  String.eqb s suffix
  || match s with
     | String _ rest => endsWith suffix rest
     | EmptyString => false
     end.

(** What the two patterns share after their head: [([^/]+)\/([^/]+)(\.git)?$],
    the second group lazy in the first pattern and greedy in the second. *)
Definition ownerRepoPattern (greedy : bool) : Regex :=
  RSeq (RGroup 1 (RPlus true notSlash))
    (RSeq (RLit "/")
       (RSeq (RGroup 2 (RPlus greedy notSlash))
          (RSeq (ROpt (RGroup 3 (RLit ".git"))) REnd))).

(** The shapes of remote URL the parser is written for. *)
Definition remotePrefixes : list string :=
  ["https://github.com/"; "git@github.com:"; "git://github.com/"; "ssh://git@github.com/"].

Definition notColon (c : ascii) : bool := negb (Ascii.eqb c ":").

(** ** Calls that may throw *)

(** What a [throw] carries: an [Error] with its message, or any other
    value. *)
Inductive Thrown :=
| ErrorObject (message : string)
| OtherValue.

(** How a call ends. *)
Inductive Outcome (A : Type) :=
| Returns (a : A)
| Throws (e : Thrown).

Arguments Returns {A} a.
Arguments Throws {A} e.

(** The [catch] of [getGitHubRepoFromRemote]: an [Error] is thrown on as it
    is, anything else is replaced. *)
Definition rethrow (e : Thrown) : Thrown :=
  match e with
  | ErrorObject message => ErrorObject message
  | OtherValue => ErrorObject "Failed to get git remote information."
  end.

(** A remote as [simple-git] lists it, with its fetch and its push URL; an
    URL that is not there is the empty string. *)
Module Remote.
Record t := mk {
  name : string;
  fetch : string;
  push : string }.
End Remote.

(** [getGitHubRepoFromRemote], given how [git.getRemotes(true)] ends. *)
Definition getGitHubRepoFromRemote (getRemotes : Outcome (list Remote.t))
    : Outcome GitHubRepo :=
  match getRemotes with
  | Throws e => Throws (rethrow e)
  | Returns remotes =>
      match remotes with
      | [] =>
          Throws (rethrow (ErrorObject
            "No git remotes found. Make sure you are in a git repository."))
      | first :: _ =>
          (* Try origin first, then fall back to the first remote *)
          let originRemote := find (λ r, String.eqb (Remote.name r) "origin") remotes in
          let remote := default first originRemote in
          if negb (truthy (Remote.fetch remote)) && negb (truthy (Remote.push remote))
          then Throws (rethrow (ErrorObject "No valid remote URL found."))
          else
            let remoteUrl :=
              if truthy (Remote.fetch remote) then Remote.fetch remote
              else Remote.push remote in
            match parseGitHubUrl remoteUrl with
            | Some repoInfo => Returns repoInfo
            | None =>
                Throws (rethrow (ErrorObject
                  ("Unable to parse GitHub repository from remote URL: " +:+ remoteUrl)))
            end
      end
  end.

(** The URL the function reads off a remote: the fetch URL, or the push URL
    when there is no fetch URL. *)
Definition remoteUrlOf (remote : Remote.t) : string :=
  if truthy (Remote.fetch remote) then Remote.fetch remote else Remote.push remote.

(** ** [src/lib/auth.ts]: the token *)

(** White space and line terminators among the code units below 256. *)
Definition isWhiteSpace (c : ascii) : bool :=
  let n := nat_of_ascii c in
  ((9 <=? n) && (n <=? 13)) || (n =? 32) || (n =? 160).

(** [s.trimStart()], [s.trimEnd()] and [s.trim()] *)
Fixpoint trimStart (s : string) : string :=
  match s with
  | String c rest => if isWhiteSpace c then trimStart rest else s
  | EmptyString => EmptyString
  end.

Fixpoint trimEnd (s : string) : string :=
  match s with
  | String c rest =>
      match trimEnd rest with
      | EmptyString => if isWhiteSpace c then EmptyString else String c EmptyString
      | kept => String c kept
      end
  | EmptyString => EmptyString
  end.

Definition trim (s : string) : string := trimEnd (trimStart s).

(** [getGitHubToken], given the value of [process.env.GITHUB_TOKEN] and how
    [execSync('gh auth token')] ends; the command is run only when the
    environment gives no token. *)
Definition tokenNotFound : string :=
  "GitHub token not found. Please set GITHUB_TOKEN environment variable or "
  +:+ "authenticate with " +:+ Js.backtick +:+ "gh auth login" +:+ Js.backtick.

Definition getGitHubToken (envToken : option string) (execSync : Outcome string)
    : Outcome string :=
  (* Fall back to gh CLI *)
  let fallback :=
    match execSync with
    | Returns out =>
        let token := trim out in
        if truthy token then Returns token else Throws (ErrorObject tokenNotFound)
    | Throws _ =>
        (* gh CLI not available or not authenticated *)
        Throws (ErrorObject tokenNotFound)
    end in
  (* First, try GITHUB_TOKEN environment variable *)
  match envToken with
  | Some token => if truthy token then Returns token else fallback
  | None => fallback
  end.

(** The first and the last character of a string. *)
Definition firstChar (s : string) : option ascii :=
  match s with
  | String c _ => Some c
  | EmptyString => None
  end.

Fixpoint lastChar (s : string) : option ascii :=
  match s with
  | String c EmptyString => Some c
  | String _ rest => lastChar rest
  | EmptyString => None
  end.

(** A string does not begin or end with white space. *)
Definition noOuterSpace (s : string) : bool :=
  negb (from_option isWhiteSpace false (firstChar s))
  && negb (from_option isWhiteSpace false (lastChar s)).

(** ** [src/lib/codeql.ts]: fetching the alerts *)

Definition perPage : nat := 100.

Section Fetch.

(** An alert as the listing returns it. *)
Variable A : Type.

(** [octokit.rest.codeScanning.listAlertsForRepo] for the repository: how
    the request for a page ends, and the [data] of the response. *)
Variable listAlertsForRepo : nat → Outcome (list A).

(** The [while (true)] loop of [fetchCodeQLAlerts] from the state it is in
    before a request: [None] when [fuel] requests did not end it. *)
Fixpoint fetchLoop (fuel : nat) (page : nat) (alerts : list A)
    : option (Outcome (list A)) :=
  match fuel with
  | O => None
  | S fuel' =>
      match listAlertsForRepo page with
      | Throws e => Some (Throws e)
      | Returns data =>
          if length data =? 0 then Some (Returns alerts)
          else
            let alerts := alerts ++ data in
            (* If we got fewer than perPage results, we're done *)
            if length data <? perPage then Some (Returns alerts)
            else fetchLoop fuel' (S page) alerts
      end
  end.

Definition fetchCodeQLAlerts (fuel : nat) : option (Outcome (list A)) :=
  fetchLoop fuel 1 [].

End Fetch.

Arguments fetchLoop {A} listAlertsForRepo fuel page alerts.
Arguments fetchCodeQLAlerts {A} listAlertsForRepo fuel.

(** ** [src/cli.ts]: the driver *)

(** [s.replace(/[:.]/g, '-')] *)
Fixpoint dashColonsAndDots (s : string) : string :=
  match s with
  | String c rest =>
      String (if Ascii.eqb c ":" || Ascii.eqb c "." then "-"%char else c)
             (dashColonsAndDots rest)
  | EmptyString => EmptyString
  end.

(** [s.replace(/T/, '-')]: the first [T] only. *)
Fixpoint dashFirstT (s : string) : string :=
  match s with
  | String c rest =>
      if Ascii.eqb c "T" then String "-"%char rest else String c (dashFirstT rest)
  | EmptyString => EmptyString
  end.

(** [s.split('.')[0]] *)
Fixpoint beforeFirstDot (s : string) : string :=
  match s with
  | String c rest => if Ascii.eqb c "." then EmptyString else String c (beforeFirstDot rest)
  | EmptyString => EmptyString
  end.

(** The time stamp of the default file name, from [new Date().toISOString()]. *)
Definition timestampOf (iso : string) : string :=
  beforeFirstDot (dashFirstT (dashColonsAndDots iso)).

Module Argv.
Record t := mk {
  format : string;
  output : option string;
  detail : DetailLevel }.
End Argv.

(** [argv.output || `code-scanning-report-${timestamp}.${argv.format}`] *)
Definition outputPathOf (argv : Argv.t) (iso : string) : string :=
  let fallback :=
    "code-scanning-report-" +:+ timestampOf iso +:+ "." +:+ Argv.format argv in
  match Argv.output argv with
  | Some path => if truthy path then path else fallback
  | None => fallback
  end.

(** The cases of [switch (argv.format)]; no case is the [default]. *)
Definition formatOf (name : string) : option Format :=
  if String.eqb name "json" then Some json
  else if String.eqb name "sarif" then Some sarif
  else if String.eqb name "txt" then Some txt
  else if String.eqb name "md" then Some md
  else None.

(** What [main] does that can be seen from outside, in order: the lines it
    prints, by what they say, and the file it writes. *)
Inductive Event :=
| Authenticating
| DetectingRepository
| RepositoryIs (repoName : string)
| FetchingAlerts
| NoAlertsFound
| FoundAlerts (count : nat)
| GeneratingReport (format : string) (detail : DetailLevel)
| WriteFile (path content : string)
| ReportSaved (path : string)
| ErrorLine (message : string)
| UnexpectedErrorLine.

(** What [main] finds around it. *)
Record World := mkWorld {
  envToken : option string;                 (* [process.env.GITHUB_TOKEN] *)
  ghAuthToken : Outcome string;             (* [execSync('gh auth token')] *)
  gitRemotes : Outcome (list Remote.t);     (* [git.getRemotes(true)] *)
  (* [fetchAllAlertsWithDetails(octokit, repo)] *)
  fetchAll : string → GitHubRepo → Outcome (list CodeQLAlert);
  generatedAt : string;                     (* the clock, read by the encoder *)
  stampedAt : string;                       (* the clock, read for the file name *)
  writeFile : string → string → Outcome unit }.

(** The [catch] of [main]. *)
Definition reportError (e : Thrown) : Event :=
  match e with
  | ErrorObject message => ErrorLine message
  | OtherValue => UnexpectedErrorLine
  end.

Section Main.

Variable buildSarifJsonString : SarifRun → string.

(** [main]: the exit code and what happened. *)
Definition main (argv : Argv.t) (w : World) : nat * list Event :=
  let failed (log : list Event) (e : Thrown) := (1, log ++ [reportError e]) in
  let log := [Authenticating] in
  match getGitHubToken (envToken w) (ghAuthToken w) with
  | Throws e => failed log e
  | Returns token =>
  let log := log ++ [DetectingRepository] in
  match getGitHubRepoFromRemote (gitRemotes w) with
  | Throws e => failed log e
  | Returns repository =>
  let log := log ++ [RepositoryIs (owner repository +:+ "/" +:+ repo repository); FetchingAlerts] in
  match fetchAll w token repository with
  | Throws e => failed log e
  | Returns alerts =>
  if length alerts =? 0 then (0, log ++ [NoAlertsFound])
  else
  let log := log ++ [FoundAlerts (length alerts);
                     GeneratingReport (Argv.format argv) (Argv.detail argv)] in
  let repoName := owner repository +:+ "/" +:+ repo repository in
  match formatOf (Argv.format argv) with
  | None => failed log (ErrorObject ("Unsupported format: " +:+ Argv.format argv))
  | Some format =>
  let content :=
    encode buildSarifJsonString format (generatedAt w) alerts repoName (Argv.detail argv) in
  let outputPath := outputPathOf argv (stampedAt w) in
  let log := log ++ [WriteFile outputPath content] in
  match writeFile w outputPath content with
  | Throws e => failed log e
  | Returns _ => (0, log ++ [ReportSaved outputPath])
  end end end end end.

End Main.

(** An event that is an error line. *)
Definition isErrorLine (ev : Event) : bool :=
  match ev with
  | ErrorLine _ | UnexpectedErrorLine => true
  | _ => false
  end.

Definition isWriteFile (ev : Event) : bool :=
  match ev with
  | WriteFile _ _ => true
  | _ => false
  end.

Definition notColonOrDot (c : ascii) : bool :=
  negb (Ascii.eqb c ":") && negb (Ascii.eqb c ".").

(** A run of the driver for the sample alert: the token is in the
    environment, the remote is the test suite's, the file is written. *)
Definition sampleWorld : World :=
  {| envToken := Some "ghp_token";
     ghAuthToken := Throws OtherValue;
     gitRemotes :=
       Returns [Remote.mk "origin" "https://github.com/owner/repo.git"
                          "https://github.com/owner/repo.git"];
     fetchAll := λ _ _, Returns [mockAlert];
     generatedAt := "2024-01-15T10:30:45.123Z";
     stampedAt := "2024-01-15T10:30:46.000Z";
     writeFile := λ _ _, Returns () |}.

Definition sampleArgv : Argv.t :=
  {| Argv.format := "json"; Argv.output := None; Argv.detail := medium |}.

(** A listing of 103 alerts, by their numbers: a full page, a page of
    three, and nothing after. *)
Definition samplePages (page : nat) : Outcome (list nat) :=
  match page with
  | 1 => Returns (seq 1 100)
  | 2 => Returns [101; 102; 103]
  | _ => Returns []
  end.

(** A listing that fails on its second page. *)
Definition failingPages (page : nat) : Outcome (list nat) :=
  match page with
  | 1 => Returns (seq 1 100)
  | _ => Throws (ErrorObject "Bad credentials")
  end.

(** * Properties *)

(** ** Objects *)

Lemma has_true {V} (k : string) (o : Js.Obj V) : Js.has k o = true ↔ k ∈ Js.keys o.
Proof. unfold Js.has. apply bool_decide_eq_true. Qed.

(** ** The detail projector *)

Section Projector.

Variable a : CodeQLAlert.

Lemma fields_minimum : fieldsAt a minimum = MinimumAlert.
Proof. reflexivity. Qed.

Lemma fields_medium : fieldsAt a medium = MediumAlert.
Proof. reflexivity. Qed.

Lemma fields_full :
  fieldsAt a full =
    FullAlert ++ match help a with
                 | Some h => if decide (h = "") then [] else FullAlertOptional
                 | None => []
                 end.
Proof.
  unfold fieldsAt, filterAlertByDetail. destruct (help a) as [h|]; [|reflexivity].
  unfold truthy. case_decide as Hh.
  - subst h. reflexivity.
  - destruct (String.eqb_spec h "") as [|_]; [done|]. reflexivity.
Qed.

End Projector.

Lemma declared_fields_NoDup : NoDup (FullAlert ++ FullAlertOptional).
Proof. compute_done. Qed.

Lemma declared_fields_nested : MinimumAlert ⊆ MediumAlert ∧ MediumAlert ⊆ FullAlert.
Proof.
  unfold FullAlert, MediumAlert. split; intros k Hk; apply elem_of_app; by left.
Qed.

(** C1. At each of the levels minimum, medium and full the projector
    returns a flattened object whose keys are exactly the members declared
    for that level, each once and in the declared order; at full the optional
    [help_text] may follow them and nothing else. The key sets are nested:
    every key of the minimum projection is a key of the medium one, and every
    key of the medium projection is a key of the full one. *)
Theorem filterAlertByDetail_field_sets (a : CodeQLAlert) :
  (∃ o, filterAlertByDetail a minimum = Flat o ∧ Js.keys o = MinimumAlert) ∧
  (∃ o, filterAlertByDetail a medium = Flat o ∧ Js.keys o = MediumAlert) ∧
  (∃ o, filterAlertByDetail a full = Flat o ∧
        (Js.keys o = FullAlert ∨ Js.keys o = FullAlert ++ FullAlertOptional)) ∧
  NoDup (fieldsAt a minimum) ∧ NoDup (fieldsAt a medium) ∧ NoDup (fieldsAt a full) ∧
  fieldsAt a minimum ⊆ fieldsAt a medium ∧ fieldsAt a medium ⊆ fieldsAt a full.
Proof.
  pose proof declared_fields_NoDup as Hnd.
  pose proof declared_fields_nested as [Hmin Hmed].
  assert (Hfull : fieldsAt a full = FullAlert
                  ∨ fieldsAt a full = FullAlert ++ FullAlertOptional).
  { rewrite fields_full. destruct (help a) as [h|]; [case_decide|].
    - left. apply app_nil_r.
    - by right.
    - left. apply app_nil_r. }
  split_and!.
  - eexists. split; reflexivity.
  - eexists. split; reflexivity.
  - unfold fieldsAt in Hfull. destruct (filterAlertByDetail a full) as [o|] eqn:E.
    + exists o. split; [reflexivity | exact Hfull].
    + exfalso. unfold filterAlertByDetail in E.
      destruct (help a) as [h|]; [destruct (truthy h)|]; discriminate.
  - rewrite fields_minimum. apply NoDup_app in Hnd as [Hnd _].
    unfold FullAlert, MediumAlert in Hnd. rewrite <- !app_assoc in Hnd.
    by apply NoDup_app in Hnd as [Hnd _].
  - rewrite fields_medium. apply NoDup_app in Hnd as [Hnd _].
    unfold FullAlert in Hnd. by apply NoDup_app in Hnd as [Hnd _].
  - destruct Hfull as [-> | ->]; [by apply NoDup_app in Hnd as [Hnd _] | done].
  - by rewrite fields_minimum, fields_medium.
  - rewrite fields_medium. destruct Hfull as [-> | ->]; [done|].
    intros k Hk. apply elem_of_app. left. by apply Hmed.
Qed.

(** C2. At the raw level the projector returns the alert it was given,
    whatever the alert: nothing is selected and nothing is flattened, the
    object that is serialised is the alert's own. *)
Theorem filterAlertByDetail_raw_identity (a : CodeQLAlert) :
  filterAlertByDetail a raw = Raw a ∧
  filteredToVal (filterAlertByDetail a raw) = alertToVal a.
Proof. split; reflexivity. Qed.

(** C3. The full projection has a [help_text] member if and only if the
    alert's [help] is present and not the empty string; the member then
    holds that string, and otherwise there is no such member at all. *)
Theorem full_help_text_iff (a : CodeQLAlert) :
  (Js.has "help_text" (asFlat (filterAlertByDetail a full)) = true
   ↔ ∃ h, help a = Some h ∧ h ≠ "") ∧
  Js.get (asFlat (filterAlertByDetail a full)) "help_text" =
    match help a with
    | Some h => if decide (h = "") then None else Some (Js.VStr h)
    | None => None
    end.
Proof.
  split.
  - rewrite has_true. fold (fieldsAt a full). rewrite fields_full.
    destruct (help a) as [h|]; [case_decide as Hh|].
    + subst h. split; [intros Hin | intros (h & [= <-] & Hne); done].
      exfalso. revert Hin. compute_done.
    + split; [intros _; by exists h | intros _].
      apply elem_of_app. right. apply list_elem_of_singleton. reflexivity.
    + split; [intros Hin | intros (h & [=] & _)].
      exfalso. revert Hin. compute_done.
  - unfold filterAlertByDetail. destruct (help a) as [h|]; [|reflexivity].
    unfold truthy. case_decide as Hh.
    + subst h. reflexivity.
    + destruct (String.eqb_spec h "") as [|_]; [done|]. reflexivity.
Qed.

(** ** Case folding *)

Lemma allChars_complete (c : ascii) : c ∈ allChars.
Proof.
  unfold allChars. apply list_elem_of_fmap. exists (nat_of_ascii c).
  split; [by rewrite ascii_nat_embedding|].
  apply elem_of_seq. pose proof (nat_ascii_bounded c). lia.
Qed.

(** A property of code units that a boolean test decides holds of all of
    them once it holds of the 256 there are. *)
Lemma forall_chars (P : ascii → bool) :
  forallb P allChars = true → ∀ c, P c = true.
Proof.
  intros H c. rewrite forallb_forall in H. apply H.
  apply list_elem_of_In, allChars_complete.
Qed.

Lemma lower_char_idem (c : ascii) : Js.lower_char (Js.lower_char c) = Js.lower_char c.
Proof.
  apply (bool_decide_eq_true_1 _). revert c.
  apply (forall_chars
           (λ c, bool_decide (Js.lower_char (Js.lower_char c) = Js.lower_char c))).
  vm_compute. reflexivity.
Qed.

Lemma toLowerCase_idem (s : string) : Js.toLowerCase (Js.toLowerCase s) = Js.toLowerCase s.
Proof. induction s as [|c s IH]; simpl; [done|]. by rewrite lower_char_idem, IH. Qed.

Lemma smallLetters_complete (d : ascii) : isSmallLetter d = true → d ∈ smallLetters.
Proof.
  unfold isSmallLetter, smallLetters. intros [H1 H2]%andb_true_iff.
  apply Nat.leb_le in H1, H2.
  apply list_elem_of_fmap. exists (nat_of_ascii d).
  split; [by rewrite ascii_nat_embedding|]. apply elem_of_seq. lia.
Qed.

(** Only a small letter itself and its capital fold to a small letter. *)
Lemma lower_char_small_letter (c d : ascii) :
  isSmallLetter d = true →
  bool_decide (Js.lower_char c = d) = sameLetter c d.
Proof.
  intros Hd%smallLetters_complete%list_elem_of_In.
  apply (bool_decide_eq_true_1 _).
  revert d Hd. apply forallb_forall. revert c.
  apply (forall_chars
           (λ c, forallb
                   (λ d, bool_decide (bool_decide (Js.lower_char c = d) = sameLetter c d))
                   smallLetters)).
  vm_compute. reflexivity.
Qed.

(** A severity folds to a keyword exactly when it spells the keyword up to
    the case of its letters. *)
Lemma toLowerCase_keyword (s t : string) :
  allSmallLetters t = true →
  bool_decide (Js.toLowerCase s = t) = equalsIgnoreCase s t.
Proof.
  revert t. induction s as [|c s IH]; intros [|d t] Ht; simpl in *; try done.
  apply andb_true_iff in Ht as [Hd Ht].
  rewrite <- (IH t Ht), <- (lower_char_small_letter c d Hd).
  rewrite <- bool_decide_and. apply bool_decide_ext.
  split; [intros [= -> ->]; done | intros [-> ->]; done].
Qed.

(** ** The SARIF formatter *)

(** C6. The severity mapping is defined on every string and ignores the
    case of letters: it agrees everywhere with the letter-by-letter reading
    in which "error" and "critical" give error, "warning" and "medium" give
    warning and every other string gives note; folding the severity first
    changes nothing; and "ERROR", "Critical", "Medium", "WARNING", "note",
    "low", the empty string and an unknown word map as the specification
    lists them. *)
Theorem mapSeverityToLevel_total_case_insensitive (s : string) :
  mapSeverityToLevel s = specSeverityLevel s ∧
  mapSeverityToLevel (Js.toLowerCase s) = mapSeverityToLevel s ∧
  map mapSeverityToLevel
      ["ERROR"; "Critical"; "Medium"; "WARNING"; "note"; "low"; ""; "unknown"]
  = [error; error; warning; warning; note; note; note; note].
Proof.
  split_and!.
  - unfold specSeverityLevel, mapSeverityToLevel.
    rewrite <- !toLowerCase_keyword by reflexivity.
    unfold bool_decide. repeat case_decide; try reflexivity; congruence.
  - unfold mapSeverityToLevel. by rewrite toLowerCase_idem.
  - reflexivity.
Qed.

Lemma full_is_flat (a : CodeQLAlert) :
  Js.has "tool_version" (asFlat (filterAlertByDetail a full)) = true ∧
  Js.prop (asFlat (filterAlertByDetail a full)) "tool_version"
  = Js.VStr (Tool.version (tool a)) ∧
  Js.has "start_column" (asFlat (filterAlertByDetail a full)) = true ∧
  Js.prop (asFlat (filterAlertByDetail a full)) "start_column"
  = Js.VNum (Location.start_column (Instance.location (most_recent_instance a))).
Proof.
  unfold filterAlertByDetail.
  destruct (help a) as [h|]; [destruct (truthy h)|]; split_and!; reflexivity.
Qed.

(** C7. Past the raw return the formatter serialises one run. At full
    level with at least one alert the run's tool driver version is the
    [tool_version] of the first alert's full projection, which is that
    alert's tool version; at full level with no alert, and at minimum and
    medium level whatever the alerts, it is the placeholder "1.0.0". *)
Theorem formatAsSARIF_tool_driver_version
    (buildSarifJsonString : SarifRun → string)
    (first : CodeQLAlert) (rest alerts : list CodeQLAlert) (repoName : string) :
  (formatAsSARIF buildSarifJsonString (first :: rest) repoName full
   = buildSarifJsonString (sarifRun (first :: rest) full) ∧
   toolDriverVersion (runOptions (sarifRun (first :: rest) full))
   = Js.prop (asFlat (filterAlertByDetail first full)) "tool_version" ∧
   toolDriverVersion (runOptions (sarifRun (first :: rest) full))
   = Js.VStr (Tool.version (tool first))) ∧
  (formatAsSARIF buildSarifJsonString [] repoName full
   = buildSarifJsonString (sarifRun [] full) ∧
   toolDriverVersion (runOptions (sarifRun [] full)) = Js.VStr "1.0.0") ∧
  (formatAsSARIF buildSarifJsonString alerts repoName minimum
   = buildSarifJsonString (sarifRun alerts minimum) ∧
   toolDriverVersion (runOptions (sarifRun alerts minimum)) = Js.VStr "1.0.0") ∧
  (formatAsSARIF buildSarifJsonString alerts repoName medium
   = buildSarifJsonString (sarifRun alerts medium) ∧
   toolDriverVersion (runOptions (sarifRun alerts medium)) = Js.VStr "1.0.0").
Proof.
  destruct (full_is_flat first) as (Hhas & Hprop & _).
  split_and!; try reflexivity.
  - unfold sarifRun, toolVersion. cbn [runOptions toolDriverVersion]. by rewrite Hhas.
  - unfold sarifRun, toolVersion. cbn [runOptions toolDriverVersion].
    by rewrite Hhas, Hprop.
Qed.


(** ** Strings *)

Lemma length_append (s t : string) :
  String.length (s +:+ t) = String.length s + String.length t.
Proof. induction s as [|c s IH]; simpl; [done | by rewrite IH]. Qed.

Lemma length_repeat_char (c : ascii) (n : nat) :
  String.length (Js.repeat (String c "") n) = n.
Proof. induction n as [|n IH]; [done|]. cbn [Js.repeat]. rewrite length_append, IH. done. Qed.

Lemma length_padEnd (s : string) (w : nat) :
  String.length (Js.padEnd s w) = String.length s `max` w.
Proof.
  unfold Js.padEnd. destruct (Nat.leb_spec w (String.length s)); [lia|].
  rewrite length_append, length_repeat_char. lia.
Qed.

(** ** The table layout *)

Section Table.

Variable headers : list string.
Variable rows : list (list string).

Lemma cellLength_cellAt (row : list string) (i : nat) :
  cellLength row i = String.length (cellAt row i).
Proof. unfold cellLength, cellAt. by destruct (row !! i). Qed.

Lemma columnWidths_spec :
  columnWidths headers rows = specColumnWidth headers rows <$> seq 0 (length headers).
Proof.
  unfold columnWidths. rewrite <- imap_seq_0. apply imap_ext. intros i header Hi.
  unfold specColumnWidth. rewrite fmap_cons. unfold cellAt at 1. rewrite Hi. simpl.
  do 2 f_equal. apply list_fmap_ext. intros _ row _. apply cellLength_cellAt.
Qed.

Lemma length_columnWidths : length (columnWidths headers rows) = length headers.
Proof. unfold columnWidths. apply length_imap. Qed.

Lemma columnWidths_lookup (i : nat) :
  i < length headers →
  columnWidths headers rows !! i = Some (specColumnWidth headers rows i).
Proof.
  intros Hi. rewrite columnWidths_spec, list_lookup_fmap, lookup_seq_lt by done.
  reflexivity.
Qed.

(** The header row pads the header's own cells. *)
Lemma padCells_headers :
  padCells (columnWidths headers rows) headers = specRowCells headers rows headers.
Proof.
  unfold padCells, specRowCells. rewrite <- imap_seq_0. apply imap_ext.
  intros i header Hi. unfold cellAt. rewrite Hi.
  rewrite columnWidths_lookup by (by eapply lookup_lt_Some). reflexivity.
Qed.

(** A data row pads its cell, or the empty string, at each column. *)
Lemma padCells_paddedRow (row : list string) :
  padCells (columnWidths headers rows) (paddedRow headers row)
  = specRowCells headers rows row.
Proof.
  unfold padCells, paddedRow, specRowCells. rewrite imap_fmap.
  rewrite <- (length_seq (length headers) 0) at 2.
  rewrite <- imap_seq_0. apply imap_ext. intros i j [-> Hi]%lookup_seq.
  simpl. rewrite columnWidths_lookup by done. reflexivity.
Qed.

(** A column is at least as wide as each of its cells. *)
Lemma specColumnWidth_ge (row : list string) (i : nat) :
  row ∈ headers :: rows → String.length (cellAt row i) ≤ specColumnWidth headers rows i.
Proof.
  intros Hrow. apply max_list_elem_of_le.
  apply list_elem_of_fmap. by exists row.
Qed.

(** A column is exactly as wide as one of its cells. *)
Lemma specColumnWidth_attained (i : nat) :
  ∃ row, row ∈ headers :: rows ∧ specColumnWidth headers rows i = String.length (cellAt row i).
Proof.
  unfold specColumnWidth.
  pose proof (max_list_elem_of ((λ row, String.length (cellAt row i)) <$> headers :: rows))
    as Hmax.
  destruct (proj1 (list_elem_of_fmap _ _ _) (Hmax ltac:(done))) as [row [Heq Hin]].
  by exists row.
Qed.

(** Every rendered cell fills its column exactly. *)
Lemma length_specRowCells (row : list string) :
  row ∈ headers :: rows →
  String.length <$> specRowCells headers rows row = columnWidths headers rows.
Proof.
  intros Hrow. rewrite columnWidths_spec. unfold specRowCells.
  rewrite <- list_fmap_compose. apply list_fmap_ext. intros _ i _. simpl.
  rewrite length_padEnd. pose proof (specColumnWidth_ge row i Hrow). lia.
Qed.

End Table.

Lemma tableLines_spec (headers : list string) (rows : list (list string)) :
  tableLines headers rows
  = tableRow (specRowCells headers rows headers)
    :: tableRow ((λ width, Js.repeat "-" width) <$> columnWidths headers rows)
    :: ((λ row, tableRow (specRowCells headers rows row)) <$> rows).
Proof.
  unfold tableLines. rewrite padCells_headers. do 2 f_equal.
  apply list_fmap_ext. intros _ row _. by rewrite padCells_paddedRow.
Qed.

(** C5. On no rows at all the table is the empty string. Otherwise each
    column's width is the greatest length among the header's cell and every
    data row's cell at that column, a cell missing from a short row counting
    as the empty string; the table is the header row, the separator row and
    one row per data row, each data row rendered from its cell, or the empty
    string, at each of the header's columns and padded on the right to the
    column's width, so that every rendered cell is exactly as long as its
    column is wide. A row shorter than the header renders with blank cells. *)
Theorem generateMarkdownTable_layout (headers : list string) (rows : list (list string)) :
  generateMarkdownTable [] = "" ∧
  columnWidths headers rows = specColumnWidth headers rows <$> seq 0 (length headers) ∧
  generateMarkdownTable (headers :: rows)
  = Js.join Js.nl
      (tableRow (specRowCells headers rows headers)
       :: tableRow ((λ width, Js.repeat "-" width) <$> columnWidths headers rows)
       :: ((λ row, tableRow (specRowCells headers rows row)) <$> rows)) ∧
  Forall (λ row, String.length <$> specRowCells headers rows row = columnWidths headers rows)
         (headers :: rows) ∧
  generateMarkdownTable [["Name"; "Age"; "City"]; ["Alice"; "30"]; ["Bob"; "25"; "LA"]]
  = "| Name  | Age | City |" +:+ Js.nl +:+
    "| ----- | --- | ---- |" +:+ Js.nl +:+
    "| Alice | 30  |      |" +:+ Js.nl +:+
    "| Bob   | 25  | LA   |".
Proof.
  split_and!.
  - reflexivity.
  - apply columnWidths_spec.
  - unfold generateMarkdownTable. by rewrite tableLines_spec.
  - apply Forall_forall. intros row Hrow. by apply length_specRowCells.
  - reflexivity.
Qed.

Section Truncation.

Variable headers : list string.
Variable rows : list (list string).

Let n := length headers.

Lemma cellAt_take (row : list string) (i : nat) :
  i < n → cellAt (take n row) i = cellAt row i.
Proof. intros Hi. unfold cellAt. by rewrite lookup_take_lt. Qed.

Lemma paddedRow_take (row : list string) :
  paddedRow headers (take n row) = paddedRow headers row.
Proof.
  unfold paddedRow. apply list_fmap_ext. intros j i [-> Hj]%lookup_seq.
  by apply cellAt_take.
Qed.

Lemma columnWidths_take :
  columnWidths headers (take n <$> rows) = columnWidths headers rows.
Proof.
  rewrite !columnWidths_spec. apply list_fmap_ext. intros j i [-> Hj]%lookup_seq.
  unfold specColumnWidth. rewrite !fmap_cons. f_equal. f_equal.
  rewrite <- list_fmap_compose. apply list_fmap_ext. intros _ row _. simpl.
  by rewrite cellAt_take.
Qed.

Lemma tableLines_take : tableLines headers (take n <$> rows) = tableLines headers rows.
Proof.
  unfold tableLines. rewrite columnWidths_take. do 2 f_equal.
  rewrite <- list_fmap_compose. apply list_fmap_ext. intros _ row _. simpl.
  by rewrite paddedRow_take.
Qed.

Lemma tableLines_cells :
  Forall (λ line, ∃ cells, line = tableRow cells ∧ length cells = n)
         (tableLines headers rows).
Proof.
  unfold tableLines. repeat apply Forall_cons_2.
  - eexists. split; [reflexivity|]. unfold padCells. by rewrite length_imap.
  - eexists. split; [reflexivity|]. by rewrite length_fmap, length_columnWidths.
  - apply Forall_fmap, Forall_forall. intros row _. simpl.
    eexists. split; [reflexivity|].
    unfold padCells, paddedRow. by rewrite length_imap, length_fmap, length_seq.
Qed.

End Truncation.

(** C10. Cells of a data row beyond the header's column count are
    dropped: the table, and each column's width, is what it would be had
    every data row been cut to the header's length beforehand, and every
    rendered row, the header row, the separator row and each data row, has
    exactly as many cells as the header. *)
Theorem generateMarkdownTable_truncates (headers : list string) (rows : list (list string)) :
  generateMarkdownTable (headers :: rows)
  = generateMarkdownTable (headers :: (take (length headers) <$> rows)) ∧
  columnWidths headers rows = columnWidths headers (take (length headers) <$> rows) ∧
  generateMarkdownTable (headers :: rows) = Js.join Js.nl (tableLines headers rows) ∧
  length (tableLines headers rows) = 2 + length rows ∧
  Forall (λ line, ∃ cells, line = tableRow cells ∧ length cells = length headers)
         (tableLines headers rows) ∧
  generateMarkdownTable [["Rule"; "Count"]; ["a"; "1"; "dropped-cell"]]
  = "| Rule | Count |" +:+ Js.nl +:+
    "| ---- | ----- |" +:+ Js.nl +:+
    "| a    | 1     |".
Proof.
  split_and!.
  - unfold generateMarkdownTable. by rewrite tableLines_take.
  - by rewrite columnWidths_take.
  - reflexivity.
  - unfold tableLines. simpl. by rewrite length_fmap.
  - apply tableLines_cells.
  - reflexivity.
Qed.

(** ** Determinism of the encoders *)



(** ** What the line-oriented encoders render at each level *)

Section Blocks.

Variable a : CodeQLAlert.

Let instance := most_recent_instance a.
Let location := Instance.location instance.






End Blocks.





(** * Further properties of the code *)

(** ** The projector: how the levels relate *)

(** X1. Each level extends the one below: the minimum projection is the
    leading part of the medium one and the medium projection the leading
    part of the full one, keys and values alike. *)
Theorem projection_levels_extend (a : CodeQLAlert) :
  asFlat (filterAlertByDetail a minimum) `prefix_of` asFlat (filterAlertByDetail a medium) ∧
  asFlat (filterAlertByDetail a medium) `prefix_of` asFlat (filterAlertByDetail a full) ∧
  Forall (λ kv, Js.get (asFlat (filterAlertByDetail a full)) kv.1 = Some kv.2)
         (asFlat (filterAlertByDetail a medium)) ∧
  Forall (λ kv, Js.get (asFlat (filterAlertByDetail a medium)) kv.1 = Some kv.2)
         (asFlat (filterAlertByDetail a minimum)).
Proof.
  split_and!.
  - eexists. reflexivity.
  - unfold filterAlertByDetail.
    destruct (help a) as [h|]; [destruct (truthy h)|]; eexists; reflexivity.
  - unfold filterAlertByDetail.
    destruct (help a) as [h|]; [destruct (truthy h)|];
      repeat (apply Forall_cons_2; [reflexivity|]); apply Forall_nil_2.
  - repeat (apply Forall_cons_2; [reflexivity|]); apply Forall_nil_2.
Qed.

(** X2. A projection is flat: at the three flattened levels every member holds
    a number or a string, never a nested object and never [undefined]. *)
Theorem projection_is_flat (a : CodeQLAlert) :
  Forall (λ lvl, Forall (λ kv, isScalar kv.2 = true) (asFlat (filterAlertByDetail a lvl)))
         [minimum; medium; full].
Proof.
  apply Forall_cons_2; [|apply Forall_cons_2; [|apply Forall_cons_2; [|apply Forall_nil_2]]].
  - repeat (apply Forall_cons_2; [reflexivity|]); apply Forall_nil_2.
  - repeat (apply Forall_cons_2; [reflexivity|]); apply Forall_nil_2.
  - unfold filterAlertByDetail.
    destruct (help a) as [h|]; [destruct (truthy h)|];
      repeat (apply Forall_cons_2; [reflexivity|]); apply Forall_nil_2.
Qed.

(** X3. The full projection loses nothing but the difference between an absent
    and an empty [help]: two alerts have the same full projection exactly
    when they agree on every member and on the help text that is shown. *)
Theorem full_projection_lossless (a b : CodeQLAlert) :
  filterAlertByDetail a full = filterAlertByDetail b full
  ↔ number a = number b ∧ rule a = rule b
    ∧ most_recent_instance a = most_recent_instance b
    ∧ tool a = tool b ∧ helpText a = helpText b.
Proof.
  destruct a as [na [ri rs rd rn] [ir ik ic ist ish [mt] [lp ls le lsc lec]] ha [tn tv]].
  destruct b as [nb [ri' rs' rd' rn'] [ir' ik' ic' ist' ish' [mt'] [lp' ls' le' lsc' lec']]
                 hb [tn' tv']].
  unfold filterAlertByDetail, helpText. cbn -[truthy Js.set].
  split.
  - destruct ha as [h|]; [destruct (truthy h)|];
      (destruct hb as [h'|]; [destruct (truthy h')|]);
      cbn; intros [=]; subst; done.
  - intros ([= ->] & [= -> -> -> ->] & [= -> -> -> -> -> -> -> -> -> -> ->]
            & [= -> ->] & Hhelp).
    destruct ha as [h|]; [destruct (truthy h)|];
      (destruct hb as [h'|]; [destruct (truthy h')|]);
      try discriminate; try reflexivity.
    by injection Hhelp as ->.
Qed.

(** ** The plain-text and markdown encoders: what each level adds *)

Lemma length_flat_map_const {A B} (f : A → list B) (k : nat) (l : list A) :
  (∀ x, length (f x) = k) → length (flat_map f l) = k * length l.
Proof.
  intros Hf. induction l as [|x l IH]; simpl; [lia|].
  rewrite length_app, Hf, IH. lia.
Qed.

Lemma textAlertLines_full (a : CodeQLAlert) :
  textAlertLines full a = textAlertLines medium a.
Proof.
  unfold textAlertLines, filterAlertByDetail.
  destruct (help a) as [h|]; [destruct (truthy h)|]; reflexivity.
Qed.

(** X4. The plain-text encoder renders nothing at full level that it does not
    render at medium level: the two reports differ in the header line that
    names the level and nowhere else. *)
Theorem formatAsText_full_is_medium (alerts : list CodeQLAlert) :
  textLines alerts full = <[2 := "Detail Level: full"]> (textLines alerts medium) ∧
  formatAsText alerts full
  = Js.join Js.nl (<[2 := "Detail Level: full"]> (textLines alerts medium)).
Proof.
  assert (H : textLines alerts full
              = <[2 := "Detail Level: full"]> (textLines alerts medium)).
  { unfold textLines. cbn [app list_insert insert]. do 4 f_equal.
    apply flat_map_ext. intros x. apply textAlertLines_full. }
  split; [exact H|]. unfold formatAsText. by rewrite H.
Qed.

Lemma markdownAlertLines_full (a : CodeQLAlert) :
  markdownAlertLines full a
  = take 20 (markdownAlertLines medium a)
    ++ ["- **Reference:** " +:+ Instance.ref (most_recent_instance a)]
    ++ drop 20 (markdownAlertLines medium a).
Proof.
  unfold markdownAlertLines, filterAlertByDetail.
  destruct (help a) as [h|]; [destruct (truthy h)|]; reflexivity.
Qed.

(** X5. At medium and at full level both encoders render the description, the
    column range and the state of every alert; the markdown encoder's full
    block is its medium block with the reference line put in after the
    state line. *)
Theorem conditional_lines_rendered (a : CodeQLAlert) :
  Forall (λ lvl,
            textAlertLines lvl a !! 4
            = Some ("Description: " +:+ Rule.description (rule a)) ∧
            textAlertLines lvl a !! 9
            = Some ("  Columns: " +:+ columnRange a) ∧
            textAlertLines lvl a !! 15
            = Some ("State: " +:+ Instance.state (most_recent_instance a)) ∧
            markdownAlertLines lvl a !! 4
            = Some ("**Description:** " +:+ Rule.description (rule a)) ∧
            markdownAlertLines lvl a !! 10
            = Some ("- **Columns:** " +:+ columnRange a) ∧
            markdownAlertLines lvl a !! 19
            = Some ("- **State:** " +:+ Instance.state (most_recent_instance a)))
         [medium; full] ∧
  markdownAlertLines full a
  = take 20 (markdownAlertLines medium a)
    ++ ["- **Reference:** " +:+ Instance.ref (most_recent_instance a)]
    ++ drop 20 (markdownAlertLines medium a).
Proof.
  split; [|apply markdownAlertLines_full].
  apply Forall_cons_2; [|apply Forall_cons_2; [|apply Forall_nil_2]].
  - split_and!; reflexivity.
  - rewrite textAlertLines_full, markdownAlertLines_full. split_and!; reflexivity.
Qed.

(** X6. Every alert adds a fixed number of lines to a report: 14, 17, 17 and 2
    to the plain-text lines at minimum, medium, full and raw level after the
    4 of the header, and 20, 23, 24 and 6 to the markdown lines after the 15
    of the header. *)
Theorem report_line_counts (now : string) (alerts : list CodeQLAlert) (repoName : string) :
  (λ lvl, length (textLines alerts lvl)) <$> [minimum; medium; full; raw]
  = (λ k, 4 + k * length alerts) <$> [14; 17; 17; 2] ∧
  (λ lvl, length (markdownLines now alerts repoName lvl)) <$> [minimum; medium; full; raw]
  = (λ k, 15 + k * length alerts) <$> [20; 23; 24; 6].
Proof.
  assert (Htext : ∀ lvl k, (∀ x, length (textAlertLines lvl x) = k) →
                           length (textLines alerts lvl) = 4 + k * length alerts).
  { intros lvl k Hk. unfold textLines. rewrite length_app.
    by rewrite (length_flat_map_const _ k). }
  assert (Hmd : ∀ lvl k, (∀ x, length (markdownAlertLines lvl x) = k) →
                         length (markdownLines now alerts repoName lvl)
                         = 15 + k * length alerts).
  { intros lvl k Hk. unfold markdownLines. rewrite length_app.
    by rewrite (length_flat_map_const _ k). }
  split; cbn [fmap list_fmap]; repeat f_equal.
  - by apply Htext.
  - by apply Htext.
  - apply Htext. intros x. by rewrite textAlertLines_full.
  - by apply Htext.
  - by apply Hmd.
  - by apply Hmd.
  - apply Hmd. intros x. by rewrite markdownAlertLines_full.
  - by apply Hmd.
Qed.

(** ** The SARIF encoder: what a result holds *)

(** X7. At each flattened level a result holds the alert's rule id, the level
    its severity maps to, its message, file path and start line; the levels
    differ in the start column alone, 1 at minimum and the alert's own at
    medium and full. *)
Theorem sarifResult_content (a : CodeQLAlert) :
  (λ lvl, sarifResult lvl a) <$> [minimum; medium; full]
  = (λ column,
       {| ruleId := Js.VStr (Rule.id (rule a));
          level := mapSeverityToLevel (Rule.severity (rule a));
          messageText := Js.VStr (Message.text (Instance.message (most_recent_instance a)));
          fileUri := Js.VStr (Location.path (Instance.location (most_recent_instance a)));
          startLine :=
            Js.VNum (Location.start_line (Instance.location (most_recent_instance a)));
          startColumn := Js.VNum column |})
    <$> [1%Z;
         Location.start_column (Instance.location (most_recent_instance a));
         Location.start_column (Instance.location (most_recent_instance a))].
Proof.
  cbn [fmap list_fmap]. repeat f_equal.
  unfold sarifResult, filterAlertByDetail.
  destruct (help a) as [h|]; [destruct (truthy h)|]; reflexivity.
Qed.

(** ** The raw level *)

(** X8. At the raw level the SARIF encoder returns what the JSON encoder
    returns, without consulting the SARIF serialiser, and the plain-text and
    markdown encoders dump for every alert the JSON of the alert itself. *)
Theorem raw_level_dumps
    (buildSarifJsonString : SarifRun → string)
    (alerts : list CodeQLAlert) (repoName : string) (a : CodeQLAlert) :
  formatAsSARIF buildSarifJsonString alerts repoName raw = formatAsJSON alerts raw ∧
  formatAsJSON alerts raw = Js.stringify (Js.VArr (alertToVal <$> alerts)) ∧
  textAlertLines raw a = [Js.stringify (alertToVal a); Js.repeat "-" 80 +:+ Js.nl] ∧
  markdownAlertLines raw a !! 1 = Some (Js.stringify (alertToVal a)).
Proof.
  assert (H : formatAsJSON alerts raw = Js.stringify (Js.VArr (alertToVal <$> alerts))).
  { unfold formatAsJSON. by rewrite map_map. }
  split_and!; [by rewrite H | exact H | reflexivity | reflexivity].
Qed.

(** ** The table layout: alignment *)

Lemma length_join (sep : string) (xs : list string) :
  String.length (Js.join sep xs)
  = sum_list (String.length <$> xs) + String.length sep * (length xs - 1).
Proof.
  induction xs as [|x xs IH]; [simpl; lia|].
  destruct xs as [|y xs]; [simpl; lia|].
  change (Js.join sep (x :: y :: xs)) with (x +:+ sep +:+ Js.join sep (y :: xs)).
  rewrite !length_append, IH. simpl. lia.
Qed.

Lemma length_tableRow (cells : list string) :
  String.length (tableRow cells)
  = 4 + sum_list (String.length <$> cells) + 3 * (length cells - 1).
Proof.
  unfold tableRow. rewrite !length_append, length_join. simpl. lia.
Qed.

Lemma append_empty_r (s : string) : s +:+ "" = s.
Proof. induction s as [|c s IH]; [done|]. exact (f_equal (String c) IH). Qed.

Lemma padEnd_appends (s : string) (w : nat) :
  Js.padEnd s w = s +:+ Js.repeat " " (w - String.length s).
Proof.
  unfold Js.padEnd. destruct (Nat.leb_spec w (String.length s)) as [Hle|]; [|done].
  replace (w - String.length s) with 0 by lia. by rewrite append_empty_r.
Qed.

(** X9. The table is aligned: the header row, the separator row and every data
    row have one and the same length, four more than the widths of the
    columns and the three characters between any two of them. *)
Theorem tableLines_aligned (headers : list string) (rows : list (list string)) :
  Forall (λ line, String.length line
                  = 4 + sum_list (columnWidths headers rows) + 3 * (length headers - 1))
         (tableLines headers rows).
Proof.
  rewrite tableLines_spec.
  assert (Hrow : ∀ row, row ∈ headers :: rows →
            String.length (tableRow (specRowCells headers rows row))
            = 4 + sum_list (columnWidths headers rows) + 3 * (length headers - 1)).
  { intros row Hrow. rewrite length_tableRow, length_specRowCells by done.
    unfold specRowCells. by rewrite length_fmap, length_seq. }
  apply Forall_cons_2; [|apply Forall_cons_2].
  - apply Hrow, elem_of_cons. by left.
  - rewrite length_tableRow, <- list_fmap_compose, length_fmap, length_columnWidths.
    do 2 f_equal. f_equal.
    rewrite <- (list_fmap_id (columnWidths headers rows)) at 2.
    apply list_fmap_ext. intros _ w _. apply length_repeat_char.
  - apply Forall_fmap, Forall_forall. intros row Hin. simpl.
    apply Hrow, elem_of_cons. by right.
Qed.

(** X10. Padding never cuts a cell: every rendered cell is the cell itself, or
    the empty string where the row has none, followed by spaces only. *)
Theorem table_cells_kept (headers : list string) (rows : list (list string))
    (row : list string) :
  padCells (columnWidths headers rows) (paddedRow headers row)
  = (λ i, cellAt row i
          +:+ Js.repeat " " (specColumnWidth headers rows i - String.length (cellAt row i)))
    <$> seq 0 (length headers).
Proof.
  rewrite padCells_paddedRow. unfold specRowCells.
  apply list_fmap_ext. intros _ i _. apply padEnd_appends.
Qed.

(** ** Objects: reading after writing *)






(** ** The severity summary *)





(** ** Regular expressions *)

Lemma matchLit_Some (lit input rest : string) :
  matchLit lit input = Some rest ↔ input = lit +:+ rest.
Proof.
  revert input. induction lit as [|c lit IH]; intros input; simpl.
  - split; [by intros [= ->] | by intros ->].
  - destruct input as [|d input]; [done|].
    destruct (Ascii.eqb_spec c d) as [->|Hne].
    + rewrite IH. split; [by intros -> | by intros [= ->]].
    + split; [done | intros [= -> _]; done].
Qed.

Lemma forallChars_app (p : ascii → bool) (s t : string) :
  forallChars p (s +:+ t) = forallChars p s && forallChars p t.
Proof. induction s as [|c s IH]; simpl; [done|]. by rewrite IH, andb_assoc. Qed.

Lemma substring_app_exact (w rest : string) :
  String.substring 0 (String.length w) (w +:+ rest) = w.
Proof. induction w as [|c w IH]; simpl; [by destruct rest | by rewrite IH]. Qed.

Lemma append_assoc (s t u : string) : (s +:+ t) +:+ u = s +:+ t +:+ u.
Proof. induction s as [|c s IH]; [done|]. exact (f_equal (String c) IH). Qed.

(** A repetition that matches has taken a non-empty run of characters of
    its class, and what follows has matched the rest. *)
Lemma plusGreedy_sound (p : ascii → bool) (pos : nat) (input : string)
    (caps : Captures) (k : Cont) (res : nat * Captures) :
  plusGreedy p pos input caps k = Some res →
  ∃ w rest, input = w +:+ rest ∧ w ≠ "" ∧ forallChars p w = true
            ∧ k (pos + String.length w) rest caps = Some res.
Proof.
  revert pos. induction input as [|c input IH]; intros pos; simpl; [done|].
  destruct (p c) eqn:Hc; [|done].
  destruct (plusGreedy p (S pos) input caps k) as [res'|] eqn:Hrec.
  - intros [= ->]. destruct (IH _ Hrec) as (w & rest & -> & Hw & Hp & Hk).
    exists (String c w), rest. simpl. rewrite Hc, Hp.
    replace (pos + S (String.length w)) with (S pos + String.length w) by lia. done.
  - intros Hk. exists (String c ""), input. simpl. rewrite Hc.
    replace (pos + 1) with (S pos) by lia. done.
Qed.

Lemma plusLazy_sound (p : ascii → bool) (pos : nat) (input : string)
    (caps : Captures) (k : Cont) (res : nat * Captures) :
  plusLazy p pos input caps k = Some res →
  ∃ w rest, input = w +:+ rest ∧ w ≠ "" ∧ forallChars p w = true
            ∧ k (pos + String.length w) rest caps = Some res.
Proof.
  revert pos. induction input as [|c input IH]; intros pos; simpl; [done|].
  destruct (p c) eqn:Hc; [|done].
  destruct (k (S pos) input caps) as [res'|] eqn:Hk.
  - intros [= ->]. exists (String c ""), input. simpl. rewrite Hc.
    replace (pos + 1) with (S pos) by lia. done.
  - intros Hrec. destruct (IH _ Hrec) as (w & rest & -> & Hw & Hp & Hk').
    exists (String c w), rest. simpl. rewrite Hc, Hp.
    replace (pos + S (String.length w)) with (S pos + String.length w) by lia. done.
Qed.

(** The tail of the two patterns, [(\.git)?$]: it matches the empty string
    and [.git], and nothing else. *)
Lemma run_suffix_sound (pos : nat) (input : string) (caps : Captures)
    (k : Cont) (res : nat * Captures) :
  run (RSeq (ROpt (RGroup 3 (RLit ".git"))) REnd) pos input caps k = Some res →
  (input = "" ∨ input = ".git") ∧
  ∃ pos' caps', k pos' "" caps' = Some res
                ∧ ∀ i, i ≠ 3 → group caps' i = group caps i.
Proof.
  cbn [run]. destruct (matchLit ".git" input) as [rest|] eqn:Hlit.
  - apply matchLit_Some in Hlit as ->. destruct rest as [|c rest]; [|done].
    destruct (k _ "" (_ :: caps)) as [res'|] eqn:Hk; [|done].
    intros [= ->]. split; [by right|]. eexists _, _. split; [exact Hk|].
    intros i Hi. unfold group. simpl. by rewrite bool_decide_eq_false_2.
  - destruct input as [|c input]; [|done].
    intros H. split; [by left|]. eexists _, _. split; [exact H | done].
Qed.

Lemma captured_exact (pos : nat) (w rest : string) :
  String.substring 0 (pos + String.length w - pos) (w +:+ rest) = w.
Proof.
  replace (pos + String.length w - pos) with (String.length w) by lia.
  apply substring_app_exact.
Qed.

Lemma plus_sound (greedy : bool) (p : ascii → bool) (pos : nat) (input : string)
    (caps : Captures) (k : Cont) (res : nat * Captures) :
  run (RPlus greedy p) pos input caps k = Some res →
  ∃ w rest, input = w +:+ rest ∧ w ≠ "" ∧ forallChars p w = true
            ∧ k (pos + String.length w) rest caps = Some res.
Proof. destruct greedy; [apply plusGreedy_sound | apply plusLazy_sound]. Qed.

(** What a match of the shared part says about the input: an owner, a
    slash, a repository name and at most a [.git], with the owner in group 1
    and the name in group 2. *)
Lemma ownerRepoPattern_sound (greedy : bool) (pos : nat) (input : string)
    (res : nat * Captures) :
  run (ownerRepoPattern greedy) pos input [] matched = Some res →
  ∃ o w sfx, input = o +:+ "/" +:+ w +:+ sfx
             ∧ o ≠ "" ∧ forallChars notSlash o = true
             ∧ w ≠ "" ∧ forallChars notSlash w = true
             ∧ (sfx = "" ∨ sfx = ".git")
             ∧ group res.2 1 = Some o ∧ group res.2 2 = Some w.
Proof.
  unfold ownerRepoPattern. cbn [run]. intros H.
  apply plusGreedy_sound in H as (o & rest & -> & Ho & Hpo & H).
  rewrite captured_exact in H.
  destruct (matchLit "/" rest) as [rest'|] eqn:Hlit; [|done].
  apply matchLit_Some in Hlit as ->.
  change (run (RPlus greedy notSlash) (pos + String.length o + String.length "/") rest'
            [(1, o)]
            (λ pos' rest0 caps',
               run (RSeq (ROpt (RGroup 3 (RLit ".git"))) REnd) pos' rest0
                 ((2, String.substring 0
                        (pos' - (pos + String.length o + String.length "/")) rest')
                  :: caps') matched) = Some res) in H.
  apply plus_sound in H as (w & sfx & -> & Hw & Hpw & H).
  rewrite captured_exact in H.
  apply run_suffix_sound in H as (Hsfx & pos' & caps' & [= <-] & Hcaps).
  exists o, w, sfx. split_and!; try done.
  - simpl. by rewrite Hcaps.
  - simpl. by rewrite Hcaps.
Qed.

Lemma search_sound (r : Regex) (pos : nat) (input : string) (m : Match) :
  search r pos input = Some m →
  ∃ pre sfx, input = pre +:+ sfx ∧ matchStart m = pos + String.length pre
             ∧ run r (matchStart m) sfx [] matched = Some (matchEnd m, captures m).
Proof.
  revert pos. induction input as [|c input IH]; intros pos; simpl.
  - destruct (run r pos "" [] matched) as [[pos' caps]|] eqn:Hrun; [|done].
    intros [= <-]. exists "", "". simpl. split_and!; [done | lia | exact Hrun].
  - destruct (run r pos (String c input) [] matched) as [[pos' caps]|] eqn:Hrun.
    + intros [= <-]. exists "", (String c input). simpl.
      split_and!; [done | lia | exact Hrun].
    + intros (pre & sfx & -> & Hstart & Hrun')%IH.
      exists (String c pre), sfx. simpl. split_and!; [done | lia | exact Hrun'].
Qed.

Lemma substring_none (s : string) : String.substring (String.length s) 0 s = "".
Proof. induction s as [|c s IH]; [done | exact IH]. Qed.

Lemma run_gitSuffix (pos : nat) (input : string) (res : nat * Captures) :
  run gitSuffixPattern pos input [] matched = Some res ↔
  input = ".git" ∧ res = (pos + 4, []).
Proof.
  unfold gitSuffixPattern. cbn [run].
  destruct (matchLit ".git" input) as [rest|] eqn:Hlit.
  - apply matchLit_Some in Hlit as ->. destruct rest as [|c rest]; simpl.
    + unfold matched. split; [by intros [= <-] | by intros [_ ->]].
    + split; [done | by intros [[=] _]].
  - split; [done|]. intros [-> _]. discriminate.
Qed.

Lemma search_gitSuffix_None (pos : nat) (s : string) :
  search gitSuffixPattern pos s = None → endsWith ".git" s = false.
Proof.
  revert pos. induction s as [|c s IH]; intros pos; [done|].
  cbn [search endsWith].
  destruct (run gitSuffixPattern pos (String c s) [] matched) as [[pos' caps]|] eqn:Hrun; [done|].
  intros Hs%IH. rewrite Hs, orb_false_r.
  destruct (String.eqb_spec (String c s) ".git") as [Heq|]; [|done].
  rewrite Heq in Hrun. by rewrite (proj2 (run_gitSuffix pos ".git" (pos + 4, []))) in Hrun.
Qed.

(** [name.replace(/\.git$/, '')] cuts one trailing [.git] and leaves a
    name without one as it is. *)
Lemma replace_gitSuffix (s : string) :
  (∃ stem, s = stem +:+ ".git" ∧ replaceWithEmpty gitSuffixPattern s = stem) ∨
  (endsWith ".git" s = false ∧ replaceWithEmpty gitSuffixPattern s = s).
Proof.
  unfold replaceWithEmpty, regexMatch.
  destruct (search gitSuffixPattern 0 s) as [m|] eqn:Hs.
  - left. apply search_sound in Hs as (pre & sfx & -> & Hstart & Hrun).
    apply run_gitSuffix in Hrun as [-> [= Hend]]. exists pre. split; [done|].
    rewrite Hend, Hstart. simpl. rewrite substring_app_exact.
    assert (Hlen : String.length (pre +:+ ".git") = String.length pre + 4)
      by (rewrite length_append; simpl; lia).
    rewrite <- Hlen, Nat.sub_diag, substring_none. apply append_empty_r.
  - right. split; [by eapply search_gitSuffix_None | done].
Qed.

Lemma endsWith_app (suffix pre : string) : endsWith suffix (pre +:+ suffix) = true.
Proof.
  induction pre as [|c pre IH].
  - change ("" +:+ suffix) with suffix. destruct suffix as [|c suffix]; [done|].
    cbn [endsWith]. by rewrite String.eqb_refl.
  - change (String c pre +:+ suffix) with (String c (pre +:+ suffix)).
    cbn [endsWith]. rewrite IH. apply orb_true_r.
Qed.

Lemma remotePattern_sound (pos : nat) (input : string) (res : nat * Captures) :
  run remotePattern pos input [] matched = Some res →
  ∃ sep rest, input = "github.com" +:+ sep +:+ rest
              ∧ (sep = ":" ∨ sep = "/")
              ∧ run (ownerRepoPattern false) (pos + 11) rest [] matched = Some res.
Proof.
  unfold remotePattern. cbn [run].
  destruct (matchLit "github.com" input) as [rest|] eqn:Hlit; [|done].
  apply matchLit_Some in Hlit as ->. destruct rest as [|c rest]; [done|].
  destruct (colonOrSlash c) eqn:Hc; [|done]. intros H.
  exists (String c ""), rest. split_and!.
  - done.
  - unfold colonOrSlash in Hc. apply orb_true_iff in Hc as [Hc|Hc];
      apply Ascii.eqb_eq in Hc as ->; [by left | by right].
  - replace (pos + 11) with (S (pos + String.length "github.com")) by (simpl; lia).
    exact H.
Qed.

Lemma shortPattern_sound (pos : nat) (input : string) (res : nat * Captures) :
  run shortPattern pos input [] matched = Some res →
  pos = 0 ∧ run (ownerRepoPattern true) pos input [] matched = Some res.
Proof.
  unfold shortPattern. cbn [run]. destruct (Nat.eqb_spec pos 0) as [->|]; [|done].
  intros H. split; [done | exact H].
Qed.

Lemma ownerRepo_parts (greedy : bool) (pos : nat) (rest : string) (m : Match) :
  run (ownerRepoPattern greedy) pos rest [] matched = Some (matchEnd m, captures m) →
  ∃ o n sfx,
    default "" (group (captures m) 1) = o
    ∧ replaceWithEmpty gitSuffixPattern (default "" (group (captures m) 2)) = n
    ∧ rest = o +:+ "/" +:+ n +:+ sfx
    ∧ sfx ∈ [""; ".git"; ".git.git"]
    ∧ n +:+ sfx ≠ ""
    ∧ o ≠ ""
    ∧ forallChars notSlash o = true
    ∧ forallChars notSlash n = true.
Proof.
  intros (o & w & sfx & -> & Ho & Hpo & Hw & Hpw & Hsfx & Hg1 & Hg2)%ownerRepoPattern_sound.
  simpl in Hg1, Hg2. rewrite Hg1, Hg2. cbn [default from_option]. unfold id.
  destruct (replace_gitSuffix w) as [(stem & -> & ->) | [_ ->]].
  - rewrite forallChars_app in Hpw. apply andb_true_iff in Hpw as [Hstem _].
    exists o, stem, (".git" +:+ sfx). rewrite !append_assoc. split_and!; try done.
    + destruct Hsfx as [-> | ->]; simpl; rewrite !elem_of_cons; auto.
    + by destruct stem.
  - exists o, w, sfx. split_and!; try done.
    + destruct Hsfx as [-> | ->]; simpl; rewrite !elem_of_cons; auto.
    + by destruct w.
Qed.

(** The parts of a parsed URL, whichever pattern matched. *)
Lemma parseGitHubUrl_parts (url : string) (r : GitHubRepo) :
  parseGitHubUrl url = Some r →
  ∃ pre sfx, url = pre +:+ owner r +:+ "/" +:+ repo r +:+ sfx
             ∧ sfx ∈ [""; ".git"; ".git.git"]
             ∧ repo r +:+ sfx ≠ ""
             ∧ owner r ≠ ""
             ∧ forallChars notSlash (owner r) = true
             ∧ forallChars notSlash (repo r) = true.
Proof.
  unfold parseGitHubUrl, patterns, regexMatch.
  destruct (search remotePattern 0 url) as [m|] eqn:Hremote.
  - intros [= <-]. cbn [owner repo].
    apply search_sound in Hremote as (pre & found & -> & _ & Hrun).
    apply remotePattern_sound in Hrun as (sep & rest & -> & Hsep & Hrun).
    apply ownerRepo_parts in Hrun
      as (o & n & sfx & -> & -> & -> & Hsfx & Hne & Ho & Hpo & Hpn).
    exists (pre +:+ "github.com" +:+ sep), sfx.
    rewrite !append_assoc. by split_and!.
  - destruct (search shortPattern 0 url) as [m|] eqn:Hshort; [|done].
    intros [= <-]. cbn [owner repo].
    apply search_sound in Hshort as (pre & found & -> & Hstart & Hrun).
    apply shortPattern_sound in Hrun as [Hpos Hrun].
    assert (pre = "") as -> by (destruct pre; [done | simpl in *; lia]).
    apply ownerRepo_parts in Hrun
      as (o & n & sfx & -> & -> & -> & Hsfx & Hne & Ho & Hpo & Hpn).
    exists "", sfx. by split_and!.
Qed.

(** X12. What the parser returns was in the URL: the URL ends with the owner, a
    slash, the repository name and at most two [.git], the owner is not
    empty, neither has a slash in it, and what precedes the owner is nothing
    or ends in [github.com:] or [github.com/]. *)
Theorem parseGitHubUrl_sound (url : string) (r : GitHubRepo) :
  parseGitHubUrl url = Some r →
  ∃ pre sfx, url = pre +:+ owner r +:+ "/" +:+ repo r +:+ sfx
             ∧ sfx ∈ [""; ".git"; ".git.git"]
             ∧ repo r +:+ sfx ≠ ""
             ∧ owner r ≠ ""
             ∧ forallChars notSlash (owner r) = true
             ∧ forallChars notSlash (repo r) = true
             ∧ (pre = "" ∨ endsWith "github.com:" pre = true
                ∨ endsWith "github.com/" pre = true).
Proof.
  unfold parseGitHubUrl, patterns, regexMatch.
  destruct (search remotePattern 0 url) as [m|] eqn:Hremote.
  - intros [= <-]. cbn [owner repo].
    apply search_sound in Hremote as (pre & found & -> & _ & Hrun).
    apply remotePattern_sound in Hrun as (sep & rest & -> & Hsep & Hrun).
    apply ownerRepo_parts in Hrun
      as (o & n & sfx & -> & -> & -> & Hsfx & Hne & Ho & Hpo & Hpn).
    exists (pre +:+ "github.com" +:+ sep), sfx.
    rewrite !append_assoc. split_and!; try done.
    right. destruct Hsep as [-> | ->]; [left | right].
    + change (pre +:+ "github.com" +:+ ":") with (pre +:+ "github.com:").
      apply endsWith_app.
    + change (pre +:+ "github.com" +:+ "/") with (pre +:+ "github.com/").
      apply endsWith_app.
  - destruct (search shortPattern 0 url) as [m|] eqn:Hshort; [|done].
    intros [= <-]. cbn [owner repo].
    apply search_sound in Hshort as (pre & found & -> & Hstart & Hrun).
    apply shortPattern_sound in Hrun as [Hpos Hrun].
    assert (pre = "") as -> by (destruct pre; [done | simpl in *; lia]).
    apply ownerRepo_parts in Hrun
      as (o & n & sfx & -> & -> & -> & Hsfx & Hne & Ho & Hpo & Hpn).
    exists "", sfx. split_and!; try done. by left.
Qed.

(** The test suite's HTTPS URL, parsed and taken apart. *)
Lemma parseGitHubUrl_sound_witness :
  parseGitHubUrl "https://github.com/owner/repo.git" = Some (mkRepo "owner" "repo") ∧
  ∃ pre sfx, "https://github.com/owner/repo.git" = pre +:+ "owner" +:+ "/" +:+ "repo" +:+ sfx
             ∧ sfx ∈ [""; ".git"; ".git.git"]
             ∧ "repo" +:+ sfx ≠ ""
             ∧ "owner" ≠ ""
             ∧ forallChars notSlash "owner" = true
             ∧ forallChars notSlash "repo" = true
             ∧ (pre = "" ∨ endsWith "github.com:" pre = true
                ∨ endsWith "github.com/" pre = true).
Proof.
  split; [reflexivity|].
  apply (parseGitHubUrl_sound "https://github.com/owner/repo.git" (mkRepo "owner" "repo")).
  reflexivity.
Defined.

Lemma endsWith_slash_noSlash (t : string) :
  forallChars notSlash t = true → endsWith "/" t = false.
Proof.
  induction t as [|c t IH]; [done|]. cbn [forallChars endsWith].
  intros [Hc Ht]%andb_true_iff. rewrite (IH Ht), orb_false_r.
  destruct (String.eqb_spec (String c t) "/") as [Heq|]; [|done].
  injection Heq as -> ->. done.
Qed.

Lemma endsWith_slash_app (x t : string) :
  t ≠ "" → forallChars notSlash t = true → endsWith "/" (x +:+ t) = false.
Proof.
  intros Hne Ht. induction x as [|c x IH]; [by apply endsWith_slash_noSlash|].
  change (String c x +:+ t) with (String c (x +:+ t)). cbn [endsWith].
  rewrite IH, orb_false_r.
  destruct (String.eqb_spec (String c (x +:+ t)) "/") as [Heq|]; [|done].
  injection Heq as _ Heq. destruct x, t; done.
Qed.

(** X13. A URL without any slash is not parsed. *)
Theorem parseGitHubUrl_needs_slash (url : string) :
  forallChars notSlash url = true → parseGitHubUrl url = None.
Proof.
  intros Hurl. destruct (parseGitHubUrl url) as [r|] eqn:Hparse; [|done].
  apply parseGitHubUrl_parts in Hparse as (pre & sfx & -> & _).
  rewrite forallChars_app in Hurl. apply andb_true_iff in Hurl as [_ Hurl].
  rewrite forallChars_app in Hurl. apply andb_true_iff in Hurl as [_ Hurl].
  discriminate.
Qed.

Lemma parseGitHubUrl_needs_slash_witness :
  forallChars notSlash "not-a-valid-url" = true ∧ parseGitHubUrl "not-a-valid-url" = None.
Proof. split; [reflexivity | apply parseGitHubUrl_needs_slash; reflexivity]. Defined.

(** X14. A URL that ends in a slash is not parsed. *)
Theorem parseGitHubUrl_trailing_slash (url : string) :
  endsWith "/" url = true → parseGitHubUrl url = None.
Proof.
  intros Hurl. destruct (parseGitHubUrl url) as [r|] eqn:Hparse; [|done].
  apply parseGitHubUrl_parts in Hparse
    as (pre & sfx & -> & Hsfx & Hne & _ & _ & Hrepo).
  rewrite <- !append_assoc in Hurl. rewrite append_assoc in Hurl.
  rewrite endsWith_slash_app in Hurl; [done | done |].
  rewrite forallChars_app, Hrepo. simpl.
  rewrite !elem_of_cons in Hsfx. destruct Hsfx as [-> | [-> | [-> | []%elem_of_nil]]]; done.
Qed.

Lemma parseGitHubUrl_trailing_slash_witness :
  endsWith "/" "https://github.com/owner/repo/" = true ∧
  parseGitHubUrl "https://github.com/owner/repo/" = None.
Proof. split; [reflexivity | apply parseGitHubUrl_trailing_slash; reflexivity]. Defined.

(** ** Parsing the usual forms *)

(** A greedy repetition takes the whole run when what follows the run
    matches what follows the repetition. *)
Lemma plusGreedy_complete (p : ascii → bool) (pos : nat) (w rest : string)
    (caps : Captures) (k : Cont) (res : nat * Captures) :
  w ≠ "" → forallChars p w = true →
  (∀ c rest', rest = String c rest' → p c = false) →
  k (pos + String.length w) rest caps = Some res →
  plusGreedy p pos (w +:+ rest) caps k = Some res.
Proof.
  intros Hw Hp Hrest. revert pos. induction w as [|c w IH]; intros pos Hk; [done|].
  cbn [forallChars] in Hp. apply andb_true_iff in Hp as [Hc Hp].
  change (String c w +:+ rest) with (String c (w +:+ rest)). cbn [plusGreedy].
  rewrite Hc. destruct w as [|d w].
  - change ("" +:+ rest) with rest.
    assert (plusGreedy p (S pos) rest caps k = None) as ->.
    { destruct rest as [|e rest']; [done|]. cbn [plusGreedy].
      by rewrite (Hrest e rest' eq_refl). }
    simpl in Hk. by replace (S pos) with (pos + 1) by lia.
  - rewrite (IH ltac:(done) Hp (S pos)); [done|].
    simpl in Hk |- *. by replace (S (pos + S (String.length w)))
      with (pos + S (S (String.length w))) by lia.
Qed.

(** A lazy repetition stops at the first length at which what follows
    matches. *)
Lemma plusLazy_complete (p : ascii → bool) (pos : nat) (w rest : string)
    (caps : Captures) (k : Cont) (res : nat * Captures) :
  w ≠ "" → forallChars p w = true →
  (∀ w1 w2, w = w1 +:+ w2 → w1 ≠ "" → w2 ≠ ""
            → k (pos + String.length w1) (w2 +:+ rest) caps = None) →
  k (pos + String.length w) rest caps = Some res →
  plusLazy p pos (w +:+ rest) caps k = Some res.
Proof.
  revert pos. induction w as [|c w IH]; intros pos Hw Hp Hearly Hk; [done|].
  cbn [forallChars] in Hp. apply andb_true_iff in Hp as [Hc Hp].
  change (String c w +:+ rest) with (String c (w +:+ rest)). cbn [plusLazy].
  rewrite Hc. destruct w as [|d w].
  - change ("" +:+ rest) with rest. simpl in Hk.
    replace (S pos) with (pos + 1) by lia. by rewrite Hk.
  - pose proof (Hearly (String c "") (String d w) eq_refl ltac:(done) ltac:(done)) as He.
    change (pos + String.length (String c "")) with (pos + 1) in He.
    rewrite Nat.add_1_r in He. rewrite He. apply IH; [done | done | |].
    + intros w1 w2 Heq Hw1 Hw2.
      specialize (Hearly (String c w1) w2). simpl in Hearly.
      replace (S pos + String.length w1) with (pos + S (String.length w1)) by lia.
      apply Hearly; [by rewrite Heq | done | done].
    + simpl in Hk |- *. by replace (S (pos + S (String.length w)))
        with (pos + S (S (String.length w))) by lia.
Qed.

Lemma run_suffix_None (pos : nat) (input : string) (caps : Captures) (k : Cont) :
  input ≠ "" → input ≠ ".git" →
  run (RSeq (ROpt (RGroup 3 (RLit ".git"))) REnd) pos input caps k = None.
Proof.
  intros H1 H2.
  destruct (run _ pos input caps k) as [res|] eqn:Hrun; [|done].
  apply run_suffix_sound in Hrun as [[-> | ->] _]; done.
Qed.

Lemma run_suffix_matched (pos : nat) (input : string) (caps : Captures) :
  input = "" ∨ input = ".git" →
  ∃ pos' caps',
    run (RSeq (ROpt (RGroup 3 (RLit ".git"))) REnd) pos input caps matched
    = Some (pos', caps')
    ∧ ∀ i, i ≠ 3 → group caps' i = group caps i.
Proof.
  intros [-> | ->].
  - by eexists _, _.
  - eexists _, _. split; [reflexivity|]. intros i Hi. unfold group. simpl.
    by rewrite bool_decide_eq_false_2.
Qed.

Lemma noSlash_head (rest : string) :
  ∀ c rest', "/" +:+ rest = String c rest' → notSlash c = false.
Proof. by intros c rest' [= <- _]. Qed.

Lemma endsWith_tail (suffix w1 w2 : string) :
  endsWith suffix w2 = true → endsWith suffix (w1 +:+ w2) = true.
Proof.
  intros H. induction w1 as [|c w1 IH]; [done|].
  change (String c w1 +:+ w2) with (String c (w1 +:+ w2)). cbn [endsWith].
  rewrite IH. apply orb_true_r.
Qed.

Lemma append_eq_suffix (w g : string) : w +:+ g = g → w = "".
Proof.
  intros H. apply (f_equal String.length) in H. rewrite length_append in H.
  destruct w; [done | simpl in H; lia].
Qed.

(** A well-formed owner and name, followed by nothing or by [.git], match
    the first pattern's tail with the owner in group 1 and the name, without
    the [.git], in group 2. *)
Lemma ownerRepoPattern_lazy_complete (pos : nat) (o n g : string) :
  o ≠ "" → forallChars notSlash o = true →
  n ≠ "" → forallChars notSlash n = true → endsWith ".git" n = false →
  g = "" ∨ g = ".git" →
  ∃ pos' caps',
    run (ownerRepoPattern false) pos (o +:+ "/" +:+ n +:+ g) [] matched = Some (pos', caps')
    ∧ group caps' 1 = Some o ∧ group caps' 2 = Some n.
Proof.
  intros Ho Hpo Hn Hpn Hgit Hg.
  destruct (run_suffix_matched
              (pos + String.length o + String.length "/" + String.length n) g
              [(2, n); (1, o)] Hg) as (pos' & caps' & Hrun & Hcaps).
  exists pos', caps'. split; [|by rewrite !Hcaps].
  unfold ownerRepoPattern. cbn [run].
  apply plusGreedy_complete; [done | done | apply (noSlash_head (n +:+ g)) |].
  rewrite captured_exact.
  change (matchLit "/" ("/" +:+ n +:+ g)) with (Some (n +:+ g)). cbn beta iota.
  apply plusLazy_complete; [done | done | |].
  - intros w1 w2 -> Hw1 Hw2. apply run_suffix_None.
    + by destruct w2.
    + intros Heq. destruct Hg as [-> | ->].
      * rewrite append_empty_r in Heq. subst w2.
        by rewrite endsWith_app in Hgit.
      * by apply append_eq_suffix in Heq.
  - rewrite captured_exact. exact Hrun.
Qed.

Lemma search_skip (r : Regex) (pos : nat) (c : ascii) (s : string) :
  run r pos (String c s) [] matched = None →
  search r pos (String c s) = search r (S pos) s.
Proof. intros H. cbn [search]. by rewrite H. Qed.

Lemma search_here (r : Regex) (pos pos' : nat) (s : string) (caps : Captures) :
  run r pos s [] matched = Some (pos', caps) →
  search r pos s = Some (mkMatch pos pos' caps).
Proof. intros H. destruct s; cbn [search]; by rewrite H. Qed.

Lemma replace_gitSuffix_id (n : string) :
  endsWith ".git" n = false → replaceWithEmpty gitSuffixPattern n = n.
Proof.
  intros Hgit. destruct (replace_gitSuffix n) as [(stem & -> & _) | [_ ->]]; [|done].
  by rewrite endsWith_app in Hgit.
Qed.

Lemma remotePattern_complete (pos : nat) (sep : ascii) (o n g : string) :
  colonOrSlash sep = true →
  o ≠ "" → forallChars notSlash o = true →
  n ≠ "" → forallChars notSlash n = true → endsWith ".git" n = false →
  g = "" ∨ g = ".git" →
  ∃ m, search remotePattern pos ("github.com" +:+ String sep (o +:+ "/" +:+ n +:+ g)) = Some m
       ∧ group (captures m) 1 = Some o ∧ group (captures m) 2 = Some n.
Proof.
  intros Hsep Ho Hpo Hn Hpn Hgit Hg.
  destruct (ownerRepoPattern_lazy_complete (S (pos + 10)) o n g)
    as (pos' & caps' & Hrun & H1 & H2); try done.
  eexists. split; [apply search_here|split; [exact H1 | exact H2]].
  unfold remotePattern. cbn [run].
  change (matchLit "github.com" ("github.com" +:+ String sep (o +:+ "/" +:+ n +:+ g)))
    with (Some (String sep (o +:+ "/" +:+ n +:+ g))).
  cbn beta iota. rewrite Hsep. exact Hrun.
Qed.

Lemma parseGitHubUrl_found (url : string) (m : Match) (o n : string) :
  search remotePattern 0 url = Some m →
  group (captures m) 1 = Some o → group (captures m) 2 = Some n →
  endsWith ".git" n = false →
  parseGitHubUrl url = Some (mkRepo o n).
Proof.
  intros Hs H1 H2 Hgit. unfold parseGitHubUrl, patterns, regexMatch.
  rewrite Hs, H1, H2. cbn [default from_option]. unfold id.
  by rewrite replace_gitSuffix_id.
Qed.

(** Skip the start positions at which the pattern fails on the spot. *)
Ltac skip_starts :=
  repeat (etrans; [apply search_skip; reflexivity |]).

Lemma search_remote_forms (pre : string) (o n g : string) :
  pre ∈ remotePrefixes →
  o ≠ "" → forallChars notSlash o = true →
  n ≠ "" → forallChars notSlash n = true → endsWith ".git" n = false →
  g = "" ∨ g = ".git" →
  ∃ m, search remotePattern 0 (pre +:+ o +:+ "/" +:+ n +:+ g) = Some m
       ∧ group (captures m) 1 = Some o ∧ group (captures m) 2 = Some n.
Proof.
  intros Hpre Ho Hpo Hn Hpn Hgit Hg. unfold remotePrefixes in Hpre.
  rewrite !elem_of_cons in Hpre.
  destruct Hpre as [-> | [-> | [-> | [-> | []%elem_of_nil]]]].
  - destruct (remotePattern_complete 8 "/" o n g) as (m & Hs & H1 & H2); try done.
    exists m. split; [|done]. rewrite <- Hs. skip_starts. reflexivity.
  - destruct (remotePattern_complete 4 ":" o n g) as (m & Hs & H1 & H2); try done.
    exists m. split; [|done]. rewrite <- Hs. skip_starts. reflexivity.
  - destruct (remotePattern_complete 6 "/" o n g) as (m & Hs & H1 & H2); try done.
    exists m. split; [|done]. rewrite <- Hs. skip_starts. reflexivity.
  - destruct (remotePattern_complete 10 "/" o n g) as (m & Hs & H1 & H2); try done.
    exists m. split; [|done]. rewrite <- Hs. skip_starts. reflexivity.
Qed.

(** X15. The usual remote URLs parse to what they name: for an owner and a
    repository name that are not empty and have no slash, the name not
    ending in [.git], the HTTPS, the SSH and the git forms of the URL, with
    or without a final [.git], give back the owner and the name. *)
Theorem parseGitHubUrl_remote_forms (pre o n : string) :
  pre ∈ remotePrefixes →
  o ≠ "" → forallChars notSlash o = true →
  n ≠ "" → forallChars notSlash n = true → endsWith ".git" n = false →
  parseGitHubUrl (pre +:+ o +:+ "/" +:+ n +:+ ".git") = Some (mkRepo o n) ∧
  parseGitHubUrl (pre +:+ o +:+ "/" +:+ n) = Some (mkRepo o n).
Proof.
  intros Hpre Ho Hpo Hn Hpn Hgit. split.
  - destruct (search_remote_forms pre o n ".git") as (m & Hs & H1 & H2); auto.
    by eapply parseGitHubUrl_found.
  - destruct (search_remote_forms pre o n "") as (m & Hs & H1 & H2); auto.
    rewrite append_empty_r in Hs. by eapply parseGitHubUrl_found.
Qed.

Lemma parseGitHubUrl_remote_forms_witness :
  parseGitHubUrl ("git@github.com:" +:+ "my-org_name" +:+ "/" +:+ "my-repo_name" +:+ ".git")
  = Some (mkRepo "my-org_name" "my-repo_name") ∧
  parseGitHubUrl ("git@github.com:" +:+ "my-org_name" +:+ "/" +:+ "my-repo_name")
  = Some (mkRepo "my-org_name" "my-repo_name").
Proof.
  apply (parseGitHubUrl_remote_forms "git@github.com:" "my-org_name" "my-repo_name").
  - unfold remotePrefixes. rewrite !elem_of_cons. auto.
  - discriminate.
  - reflexivity.
  - discriminate.
  - reflexivity.
  - reflexivity.
Defined.

(** ** The short form [owner/repo] *)

Lemma append_inv_r (s1 s2 t : string) : s1 +:+ t = s2 +:+ t → s1 = s2.
Proof.
  revert s2. induction s1 as [|c s1 IH]; intros s2 H.
  - symmetry. by apply (append_eq_suffix s2 t).
  - destruct s2 as [|d s2].
    + by apply (append_eq_suffix (String c s1) t) in H.
    + injection H as -> H. f_equal. by apply IH.
Qed.

(** A string with a single slash splits at it in one way only. *)
Lemma split_at_slash (o x a b : string) :
  forallChars notSlash o = true → forallChars notSlash x = true →
  o +:+ "/" +:+ x = a +:+ "/" +:+ b → a = o ∧ b = x.
Proof.
  intros Ho Hx. revert a. induction o as [|c o IH]; intros a H.
  - destruct a as [|d a]; simplify_eq/=; [done|].
    change ("" +:+ x) with x in *. subst x. rewrite forallChars_app in Hx.
    apply andb_true_iff in Hx as [_ Hx]. discriminate.
  - cbn [forallChars] in Ho. apply andb_true_iff in Ho as [Hc Ho].
    destruct a as [|d a]; simplify_eq/=.
    destruct (IH Ho a) as [-> ->]; done.
Qed.

Lemma remotePattern_needs_colon (o n g : string) :
  forallChars notSlash o = true → forallChars notColon o = true →
  forallChars notSlash (n +:+ g) = true →
  search remotePattern 0 (o +:+ "/" +:+ n +:+ g) = None.
Proof.
  intros Ho Hcolon Hn.
  destruct (search remotePattern 0 _) as [m|] eqn:Hs; [|done].
  apply search_sound in Hs as (pre & found & Heq & _ & Hrun).
  apply remotePattern_sound in Hrun as (sep & rest & -> & Hsep & Hrun).
  apply ownerRepoPattern_sound in Hrun as (o' & w & sfx & -> & _).
  rewrite <- !append_assoc in Heq. rewrite !append_assoc in Heq.
  rewrite <- (append_assoc pre), <- (append_assoc (pre +:+ "github.com")),
    <- (append_assoc ((pre +:+ "github.com") +:+ sep)) in Heq.
  apply split_at_slash in Heq as [Heq _]; [|done|done].
  rewrite <- Heq, !forallChars_app in Ho, Hcolon.
  destruct Hsep as [-> | ->].
  - apply andb_true_iff in Hcolon as [[_ Hcolon]%andb_true_iff _]. discriminate.
  - apply andb_true_iff in Ho as [[_ Ho]%andb_true_iff _]. discriminate.
Qed.

Lemma plusGreedy_all (p : ascii → bool) (pos : nat) (w : string)
    (caps : Captures) (k : Cont) (res : nat * Captures) :
  w ≠ "" → forallChars p w = true →
  k (pos + String.length w) "" caps = Some res →
  plusGreedy p pos w caps k = Some res.
Proof.
  intros Hw Hp Hk. rewrite <- (append_empty_r w). by apply plusGreedy_complete.
Qed.

Lemma captured_all (pos : nat) (w : string) :
  String.substring 0 (pos + String.length w - pos) w = w.
Proof.
  pose proof (captured_exact pos w "") as H. by rewrite append_empty_r in H.
Qed.

Lemma shortPattern_complete (o n g : string) :
  o ≠ "" → forallChars notSlash o = true →
  n ≠ "" → forallChars notSlash (n +:+ g) = true →
  ∃ m, search shortPattern 0 (o +:+ "/" +:+ n +:+ g) = Some m
       ∧ group (captures m) 1 = Some o ∧ group (captures m) 2 = Some (n +:+ g).
Proof.
  intros Ho Hpo Hn Hpn.
  eexists. split; [apply search_here|].
  - unfold shortPattern. cbn [run Nat.eqb].
    apply plusGreedy_complete; [done | done | apply (noSlash_head (n +:+ g)) |].
    rewrite captured_exact.
    change (matchLit "/" ("/" +:+ n +:+ g)) with (Some (n +:+ g)). cbn beta iota.
    apply plusGreedy_all; [by destruct n | done |].
    rewrite captured_all. reflexivity.
  - done.
Qed.

(** X16. The short form parses too: for an owner and a repository name that
    are not empty and have no slash, the owner having no colon and the name
    not ending in [.git], [owner/name] and [owner/name.git] give back the
    owner and the name. *)
Theorem parseGitHubUrl_short_form (o n : string) :
  o ≠ "" → forallChars notSlash o = true → forallChars notColon o = true →
  n ≠ "" → forallChars notSlash n = true → endsWith ".git" n = false →
  parseGitHubUrl (o +:+ "/" +:+ n +:+ ".git") = Some (mkRepo o n) ∧
  parseGitHubUrl (o +:+ "/" +:+ n) = Some (mkRepo o n).
Proof.
  intros Ho Hpo Hcolon Hn Hpn Hgit.
  assert (Hg : ∀ g, g = "" ∨ g = ".git" →
            parseGitHubUrl (o +:+ "/" +:+ n +:+ g) = Some (mkRepo o n)).
  { intros g Hg.
    assert (Hpng : forallChars notSlash (n +:+ g) = true).
    { rewrite forallChars_app, Hpn. by destruct Hg as [-> | ->]. }
    unfold parseGitHubUrl, patterns, regexMatch.
    rewrite remotePattern_needs_colon by done.
    destruct (shortPattern_complete o n g) as (m & -> & -> & ->); try done.
    cbn [default from_option]. unfold id. f_equal. f_equal.
    destruct Hg as [-> | ->].
    - rewrite append_empty_r. by apply replace_gitSuffix_id.
    - destruct (replace_gitSuffix (n +:+ ".git")) as [(stem & Heq & ->) | [Hno _]].
      + symmetry. by apply append_inv_r in Heq.
      + by rewrite endsWith_app in Hno. }
  split; [by apply Hg; right|]. rewrite <- (append_empty_r n) at 1. by apply Hg; left.
Qed.

Lemma parseGitHubUrl_short_form_witness :
  parseGitHubUrl ("owner" +:+ "/" +:+ "repo" +:+ ".git") = Some (mkRepo "owner" "repo") ∧
  parseGitHubUrl ("owner" +:+ "/" +:+ "repo") = Some (mkRepo "owner" "repo").
Proof.
  apply (parseGitHubUrl_short_form "owner" "repo");
    first [discriminate | reflexivity].
Defined.

(** ** The repository of the working directory *)

(** X17. Whatever goes wrong, the caller gets an [Error] with a message, never
    another thrown value; and what is returned is the parse of the URL of a
    listed remote, with a non-empty owner. *)
Theorem getGitHubRepoFromRemote_outcomes (getRemotes : Outcome (list Remote.t)) :
  match getGitHubRepoFromRemote getRemotes with
  | Throws e => ∃ message, e = ErrorObject message
  | Returns repoInfo =>
      ∃ remotes remote,
        getRemotes = Returns remotes ∧ remote ∈ remotes
        ∧ parseGitHubUrl (remoteUrlOf remote) = Some repoInfo
        ∧ owner repoInfo ≠ ""
  end.
Proof.
  unfold getGitHubRepoFromRemote.
  destruct getRemotes as [[|first rest]|[m|]]; try by eexists.
  set (remotes := first :: rest).
  destruct (find _ remotes) as [r|] eqn:Hfind; cbn [default from_option];
    [unfold id | ].
  - assert (r ∈ remotes) as Hin.
    { apply find_some in Hfind as [Hin _]. by apply list_elem_of_In. }
    destruct (negb (truthy (Remote.fetch r)) && negb (truthy (Remote.push r)));
      [by eexists|].
    fold (remoteUrlOf r).
    destruct (parseGitHubUrl (remoteUrlOf r)) as [repoInfo|] eqn:Hparse; [|by eexists].
    exists remotes, r. split_and!; try done.
    by apply parseGitHubUrl_parts in Hparse as (_ & _ & _ & _ & _ & ? & _).
  - destruct (negb (truthy (Remote.fetch first)) && negb (truthy (Remote.push first)));
      [by eexists|].
    fold (remoteUrlOf first).
    destruct (parseGitHubUrl (remoteUrlOf first)) as [repoInfo|] eqn:Hparse; [|by eexists].
    exists remotes, first. split_and!; try done.
    + apply elem_of_cons. by left.
    + by apply parseGitHubUrl_parts in Hparse as (_ & _ & _ & _ & _ & ? & _).
Qed.

(** X18. The remote named [origin] decides, wherever it stands in the list and
    whatever the other remotes are: the outcome is the one the function has
    on that remote alone. *)
Theorem getGitHubRepoFromRemote_prefers_origin
    (before after : list Remote.t) (origin : Remote.t) :
  Remote.name origin = "origin" →
  Forall (λ r, Remote.name r ≠ "origin") before →
  getGitHubRepoFromRemote (Returns (before ++ origin :: after))
  = getGitHubRepoFromRemote (Returns [origin]).
Proof.
  intros Hname Hbefore.
  assert (Hfind : find (λ r, String.eqb (Remote.name r) "origin")
                       (before ++ origin :: after) = Some origin).
  { induction Hbefore as [|r before Hr _ IH]; simpl.
    - by rewrite Hname.
    - destruct (String.eqb_spec (Remote.name r) "origin"); [done | exact IH]. }
  unfold getGitHubRepoFromRemote.
  destruct (before ++ origin :: after) as [|first rest] eqn:Heq.
  - by destruct before.
  - rewrite Hfind. simpl. by rewrite Hname.
Qed.

Lemma getGitHubRepoFromRemote_prefers_origin_witness :
  getGitHubRepoFromRemote
    (Returns ([Remote.mk "upstream" "https://github.com/fork/project.git" ""]
              ++ Remote.mk "origin" "" "git@github.com:owner/repo.git" :: []))
  = getGitHubRepoFromRemote
      (Returns [Remote.mk "origin" "" "git@github.com:owner/repo.git"]).
Proof.
  apply (getGitHubRepoFromRemote_prefers_origin
           [Remote.mk "upstream" "https://github.com/fork/project.git" ""] []
           (Remote.mk "origin" "" "git@github.com:owner/repo.git")).
  - reflexivity.
  - apply Forall_cons_2; [discriminate | apply Forall_nil_2].
Defined.

(** ** The token *)

Lemma truthy_ne (s : string) : truthy s = true ↔ s ≠ "".
Proof. unfold truthy. destruct (String.eqb_spec s ""); split; done. Qed.

Lemma trimStart_first (s : string) :
  from_option isWhiteSpace false (firstChar (trimStart s)) = false.
Proof.
  induction s as [|c s IH]; [done|]. simpl.
  destruct (isWhiteSpace c) eqn:Hc; [exact IH | simpl; exact Hc].
Qed.

Lemma trimEnd_last (s : string) :
  from_option isWhiteSpace false (lastChar (trimEnd s)) = false.
Proof.
  induction s as [|c s IH]; [done|]. cbn [trimEnd].
  destruct (trimEnd s) as [|d kept] eqn:Hkept.
  - destruct (isWhiteSpace c) eqn:Hc; [done | simpl; exact Hc].
  - exact IH.
Qed.

Lemma trimEnd_first (s : string) :
  trimEnd s ≠ "" → firstChar (trimEnd s) = firstChar s.
Proof.
  destruct s as [|c s]; [done|]. cbn [trimEnd].
  destruct (trimEnd s); [destruct (isWhiteSpace c)|]; done.
Qed.

Lemma trim_noOuterSpace (s : string) : trim s ≠ "" → noOuterSpace (trim s) = true.
Proof.
  intros Hne. unfold noOuterSpace, trim in *.
  rewrite trimEnd_first, trimStart_first, trimEnd_last by done. done.
Qed.

(** X19. The token is never empty. It is the environment's when that is set and
    not empty, as it stands; otherwise it is the output of [gh auth token]
    without the white space around it. Failing both, the function throws an
    [Error] with its fixed message. *)
Theorem getGitHubToken_outcomes (envToken : option string) (execSync : Outcome string) :
  match getGitHubToken envToken execSync with
  | Returns token =>
      token ≠ "" ∧
      (envToken = Some token
       ∨ (envToken = None ∨ envToken = Some "")
         ∧ ∃ out, execSync = Returns out ∧ token = trim out
                  ∧ noOuterSpace token = true)
  | Throws e =>
      e = ErrorObject tokenNotFound
      ∧ (envToken = None ∨ envToken = Some "")
      ∧ (∀ out, execSync = Returns out → trim out = "")
  end.
Proof.
  assert (Hfallback : envToken = None ∨ envToken = Some "" →
            match getGitHubToken None execSync with
            | Returns token =>
                token ≠ "" ∧
                (envToken = Some token
                 ∨ (envToken = None ∨ envToken = Some "")
                   ∧ ∃ out, execSync = Returns out ∧ token = trim out
                            ∧ noOuterSpace token = true)
            | Throws e =>
                e = ErrorObject tokenNotFound
                ∧ (envToken = None ∨ envToken = Some "")
                ∧ (∀ out, execSync = Returns out → trim out = "")
            end).
  { intros Henv. unfold getGitHubToken. destruct execSync as [out|e].
    - destruct (truthy (trim out)) eqn:Hout.
      + apply truthy_ne in Hout. split; [done|]. right. split; [done|].
        exists out. split_and!; [done | done | by apply trim_noOuterSpace].
      + split_and!; [done | done |]. intros ? [= <-].
        destruct (String.eqb_spec (trim out) ""); [done|].
        unfold truthy in Hout. by destruct (String.eqb_spec (trim out) "").
    - split_and!; [done | done | done]. }
  destruct envToken as [token|]; [|by apply Hfallback; left].
  destruct (truthy token) eqn:Htoken.
  - unfold getGitHubToken. rewrite Htoken. apply truthy_ne in Htoken. by split; [|left].
  - assert (token = "") as ->.
    { unfold truthy in Htoken. by destruct (String.eqb_spec token ""). }
    by apply Hfallback; right.
Qed.

(** ** Pagination *)

Section Pagination.

Context {A : Type}.
Variable listAlertsForRepo : nat → Outcome (list A).

(** More requests allowed do not change an answer already given. *)
Lemma fetchLoop_more_fuel (fuel extra page : nat) (alerts : list A)
    (r : Outcome (list A)) :
  fetchLoop listAlertsForRepo fuel page alerts = Some r →
  fetchLoop listAlertsForRepo (fuel + extra) page alerts = Some r.
Proof.
  revert page alerts. induction fuel as [|fuel IH]; intros page alerts; [done|].
  cbn [fetchLoop Nat.add]. destruct (listAlertsForRepo page) as [data|e]; [|done].
  destruct (length data =? 0); [done|]. destruct (length data <? perPage); [done|].
  apply IH.
Qed.

(** The loop over a run of full pages followed by a page that ends it. *)
Lemma fetchLoop_pages (full : list (list A)) (page : nat) (alerts : list A) (fuel : nat) :
  Forall (λ data, perPage ≤ length data) full →
  (∀ i data, full !! i = Some data → listAlertsForRepo (page + i) = Returns data) →
  fetchLoop listAlertsForRepo (length full + fuel) page alerts
  = fetchLoop listAlertsForRepo fuel (page + length full) (alerts ++ concat full).
Proof.
  revert page alerts. induction full as [|data full IH]; intros page alerts Hfull Hpages.
  - simpl. by rewrite Nat.add_0_r, app_nil_r.
  - apply Forall_cons in Hfull as [Hdata Hfull].
    cbn [length Nat.add fetchLoop].
    pose proof (Hpages 0 data eq_refl) as H0. rewrite Nat.add_0_r in H0. rewrite H0.
    unfold perPage in *.
    destruct (Nat.eqb_spec (length data) 0) as [|_]; [lia|].
    destruct (Nat.ltb_spec (length data) 100) as [|_]; [lia|].
    rewrite IH; [| done |].
    + simpl. rewrite <- app_assoc. f_equal. lia.
    + intros i d Hi. replace (S page + i) with (page + S i) by lia. by apply Hpages.
Qed.

(** X20. The alerts fetched are the pages in order, up to and including the
    first page that is not full: when the pages [1..k] are full and the page
    [k+1] is shorter, [k+1] requests end the loop with all of them. *)
Theorem fetchCodeQLAlerts_pages (full : list (list A)) (last : list A) (fuel : nat) :
  Forall (λ data, perPage ≤ length data) full →
  length last < perPage →
  (∀ i data, full !! i = Some data → listAlertsForRepo (1 + i) = Returns data) →
  listAlertsForRepo (1 + length full) = Returns last →
  length full < fuel →
  fetchCodeQLAlerts listAlertsForRepo fuel = Some (Returns (concat full ++ last)).
Proof.
  intros Hfull Hlast Hpages Hend Hfuel. unfold fetchCodeQLAlerts.
  replace fuel with (length full + (1 + (fuel - length full - 1))) by lia.
  rewrite fetchLoop_pages by done.
  apply fetchLoop_more_fuel. cbn [fetchLoop]. rewrite Hend. unfold perPage in *.
  destruct (Nat.eqb_spec (length last) 0) as [Hnil|_].
  - destruct last; [|done]. by rewrite app_nil_r.
  - destruct (Nat.ltb_spec (length last) 100) as [_|]; [done | lia].
Qed.

(** X21. A request that fails ends the loop with its error, and the alerts of
    the full pages before it are given up. *)
Theorem fetchCodeQLAlerts_error (full : list (list A)) (e : Thrown) (fuel : nat) :
  Forall (λ data, perPage ≤ length data) full →
  (∀ i data, full !! i = Some data → listAlertsForRepo (1 + i) = Returns data) →
  listAlertsForRepo (1 + length full) = Throws e →
  length full < fuel →
  fetchCodeQLAlerts listAlertsForRepo fuel = Some (Throws e).
Proof.
  intros Hfull Hpages Hend Hfuel. unfold fetchCodeQLAlerts.
  replace fuel with (length full + (1 + (fuel - length full - 1))) by lia.
  rewrite fetchLoop_pages by done.
  apply fetchLoop_more_fuel. cbn [fetchLoop]. by rewrite Hend.
Qed.

End Pagination.

Lemma fetchCodeQLAlerts_pages_witness :
  fetchCodeQLAlerts samplePages 2 = Some (Returns (concat [seq 1 100] ++ [101; 102; 103])).
Proof.
  apply (fetchCodeQLAlerts_pages samplePages [seq 1 100] [101; 102; 103] 2).
  - apply Forall_cons_2; [vm_compute; lia | apply Forall_nil_2].
  - vm_compute; lia.
  - intros [|i] data; [by intros [= <-] | by destruct i].
  - reflexivity.
  - simpl; lia.
Defined.

Lemma fetchCodeQLAlerts_error_witness :
  fetchCodeQLAlerts failingPages 2 = Some (Throws (ErrorObject "Bad credentials")).
Proof.
  apply (fetchCodeQLAlerts_error failingPages [seq 1 100] (ErrorObject "Bad credentials") 2).
  - apply Forall_cons_2; [vm_compute; lia | apply Forall_nil_2].
  - intros [|i] data; [by intros [= <-] | by destruct i].
  - reflexivity.
  - simpl; lia.
Defined.

(** ** The driver *)

Lemma dashColonsAndDots_clean (s : string) :
  forallChars notColonOrDot (dashColonsAndDots s) = true.
Proof.
  induction s as [|c s IH]; [done|]. cbn [dashColonsAndDots forallChars].
  rewrite IH, andb_true_r. unfold notColonOrDot.
  destruct (Ascii.eqb c ":") eqn:H1; [done|].
  destruct (Ascii.eqb c ".") eqn:H2; [done|]. cbn [orb]. by rewrite H1, H2.
Qed.

Lemma dashFirstT_clean (s : string) :
  forallChars notColonOrDot s = true → forallChars notColonOrDot (dashFirstT s) = true.
Proof.
  induction s as [|c s IH]; [done|]. cbn [dashFirstT forallChars].
  intros [Hc Hs]%andb_true_iff. destruct (Ascii.eqb c "T").
  - cbn [forallChars]. by rewrite Hs.
  - cbn [forallChars]. by rewrite Hc, IH.
Qed.

Lemma beforeFirstDot_clean (s : string) :
  forallChars notColonOrDot s = true → beforeFirstDot s = s.
Proof.
  induction s as [|c s IH]; [done|]. cbn [beforeFirstDot forallChars].
  intros [Hc Hs]%andb_true_iff. unfold notColonOrDot in Hc.
  apply andb_true_iff in Hc as [_ Hc]. apply negb_true_iff in Hc. rewrite Hc.
  by rewrite IH.
Qed.

Lemma length_dashColonsAndDots (s : string) :
  String.length (dashColonsAndDots s) = String.length s.
Proof. induction s as [|c s IH]; [done|]. simpl. by rewrite IH. Qed.

Lemma length_dashFirstT (s : string) : String.length (dashFirstT s) = String.length s.
Proof.
  induction s as [|c s IH]; [done|]. cbn [dashFirstT].
  destruct (Ascii.eqb c "T"); simpl; [done | by rewrite IH].
Qed.

(** X22. The time stamp of the default file name has no colon and no dot in it
    and is as long as the ISO date it comes from: the dots are dashes before
    the stamp is cut at the first dot, so nothing is cut and the
    milliseconds stay. *)
Theorem timestampOf_clean (iso : string) :
  forallChars notColonOrDot (timestampOf iso) = true ∧
  timestampOf iso = dashFirstT (dashColonsAndDots iso) ∧
  String.length (timestampOf iso) = String.length iso ∧
  timestampOf "2024-01-15T10:30:45.123Z" = "2024-01-15-10-30-45-123Z".
Proof.
  assert (H : timestampOf iso = dashFirstT (dashColonsAndDots iso)).
  { unfold timestampOf. apply beforeFirstDot_clean, dashFirstT_clean,
      dashColonsAndDots_clean. }
  split_and!; [| exact H | | reflexivity].
  - rewrite H. apply dashFirstT_clean, dashColonsAndDots_clean.
  - by rewrite H, length_dashFirstT, length_dashColonsAndDots.
Qed.

(** An event list without the event looked for. *)
Ltac no_write Hin Hno :=
  cbn [length Nat.eqb snd app] in Hin;
  repeat (rewrite elem_of_cons in Hin; destruct Hin as [Hin|Hin];
          [first [discriminate Hin | by exfalso; eapply Hno] |]);
  by apply elem_of_nil in Hin.

Section MainProperties.

Variable buildSarifJsonString : SarifRun → string.
Variable argv : Argv.t.
Variable w : World.

Lemma Forall_snoc_not_error (log : list Event) (ev : Event) :
  Forall (λ ev, isErrorLine ev = false) log → isErrorLine ev = false →
  Forall (λ ev, isErrorLine ev = false) (log ++ [ev]).
Proof. intros Hlog Hev. apply Forall_app. split; [done | by apply Forall_cons_2]. Qed.

Lemma reportError_is_error (e : Thrown) : isErrorLine (reportError e) = true.
Proof. by destruct e. Qed.

(** X23. The exit code is 0 or 1, and it is 1 exactly when an error line is
    printed: on success there is none, on failure there is one and it is the
    last thing that happens. *)
Theorem main_exit_code :
  ((main buildSarifJsonString argv w).1 = 0
   ∧ Forall (λ ev, isErrorLine ev = false) (main buildSarifJsonString argv w).2) ∨
  ((main buildSarifJsonString argv w).1 = 1
   ∧ ∃ before ev,
       (main buildSarifJsonString argv w).2 = before ++ [ev]
       ∧ isErrorLine ev = true
       ∧ Forall (λ ev, isErrorLine ev = false) before).
Proof.
  unfold main.
  destruct (getGitHubToken _ _) as [token|e].
  2: { right. split; [done|]. eexists _, _. split; [done|].
       split; [apply reportError_is_error | by repeat constructor]. }
  destruct (getGitHubRepoFromRemote _) as [repository|e].
  2: { right. split; [done|]. eexists _, _. split; [done|].
       split; [apply reportError_is_error | by repeat constructor]. }
  destruct (fetchAll w token repository) as [alerts|e].
  2: { right. split; [done|]. eexists _, _. split; [done|].
       split; [apply reportError_is_error | by repeat constructor]. }
  destruct (length alerts =? 0).
  { left. split; [done | by repeat constructor]. }
  destruct (formatOf _) as [format|].
  2: { right. split; [done|]. eexists _, _. split; [done|].
       split; [done | by repeat constructor]. }
  destruct (writeFile w _ _) as [[]|e].
  - left. split; [done | by repeat constructor].
  - right. split; [done|]. eexists _, _. split; [done|].
    split; [apply reportError_is_error | by repeat constructor].
Qed.


(** X25. A file is written only for alerts that were fetched, at least one, in
    a format that is one of the four: the content is the report the encoder
    of that format gives for them, the path is the one asked for or the
    default one, and nothing else is written. *)
Theorem main_writes (path content : string) :
  WriteFile path content ∈ (main buildSarifJsonString argv w).2 →
  ∃ token repository alerts format,
    getGitHubToken (envToken w) (ghAuthToken w) = Returns token
    ∧ getGitHubRepoFromRemote (gitRemotes w) = Returns repository
    ∧ fetchAll w token repository = Returns alerts
    ∧ alerts ≠ []
    ∧ formatOf (Argv.format argv) = Some format
    ∧ content = encode buildSarifJsonString format (generatedAt w) alerts
                  (owner repository +:+ "/" +:+ repo repository) (Argv.detail argv)
    ∧ path = outputPathOf argv (stampedAt w)
    ∧ length (filter (λ ev, isWriteFile ev = true)
                     (main buildSarifJsonString argv w).2) = 1.
Proof.
  unfold main.
  assert (Hno : ∀ e : Thrown, WriteFile path content ≠ reportError e) by (by intros []).
  assert (Hnot : ∀ e : Thrown, isWriteFile (reportError e) = false) by (by intros []).
  destruct (getGitHubToken _ _) as [token|e]; [|intros Hin; no_write Hin Hno].
  destruct (getGitHubRepoFromRemote _) as [repository|e]; [|intros Hin; no_write Hin Hno].
  destruct (fetchAll w token repository) as [alerts|e] eqn:Hfetch;
    [|intros Hin; no_write Hin Hno].
  destruct alerts as [|a alerts]; [intros Hin; no_write Hin Hno|].
  cbn [length Nat.eqb].
  destruct (formatOf _) as [format|] eqn:Hformat; [|intros Hin; no_write Hin Hno].
  intros Hin. exists token, repository, (a :: alerts), format.
  assert (Hwritten : WriteFile path content
                     = WriteFile (outputPathOf argv (stampedAt w))
                         (encode buildSarifJsonString format (generatedAt w) (a :: alerts)
                            (owner repository +:+ "/" +:+ repo repository)
                            (Argv.detail argv))).
  { destruct (writeFile w _ _) as [[]|e]; cbn [snd app] in Hin;
      repeat (rewrite elem_of_cons in Hin; destruct Hin as [Hin|Hin];
              [first [discriminate Hin | exact Hin | by exfalso; eapply Hno] |]);
      by apply elem_of_nil in Hin. }
  injection Hwritten as -> ->. split_and!; try done.
  destruct (writeFile w _ _) as [[]|e]; cbn [snd app]; [done|].
  rewrite !filter_cons, filter_nil. cbn [isWriteFile]. rewrite Hnot.
  repeat case_decide; done.
Qed.

End MainProperties.

Lemma main_writes_witness :
  ∃ token repository alerts format,
    getGitHubToken (envToken sampleWorld) (ghAuthToken sampleWorld) = Returns token
    ∧ getGitHubRepoFromRemote (gitRemotes sampleWorld) = Returns repository
    ∧ fetchAll sampleWorld token repository = Returns alerts
    ∧ alerts ≠ []
    ∧ formatOf (Argv.format sampleArgv) = Some format
    ∧ formatAsJSON [mockAlert] medium
      = encode (λ _, "") format (generatedAt sampleWorld) alerts
          (owner repository +:+ "/" +:+ repo repository) (Argv.detail sampleArgv)
    ∧ "code-scanning-report-2024-01-15-10-30-46-000Z.json"
      = outputPathOf sampleArgv (stampedAt sampleWorld)
    ∧ length (filter (λ ev, isWriteFile ev = true)
                     (main (λ _, "") sampleArgv sampleWorld).2) = 1.
Proof.
  apply (main_writes (λ _, "") sampleArgv sampleWorld
           "code-scanning-report-2024-01-15-10-30-46-000Z.json"
           (formatAsJSON [mockAlert] medium)).
  do 6 apply list_elem_of_further. apply list_elem_of_here.
Defined.
